(** * Pseudo-Code Obfuscation Buster: a shallow embedding and its properties

    The program (pseudo_code_obfuscation_buster.py) is a pipeline of regular
    expression rewrites followed by four regular expression detectors.  This
    file embeds

    - the fragment of Python's [str] and [re] that the program uses
      (modules [Py] and [Re]): a backtracking matcher with the priorities of
      [re] (leftmost start, alternatives left to right, greedy and lazy
      repetition, capture groups, back-references, word boundaries,
      IGNORECASE), and the scanning functions [sub], [findall], [finditer],
      [split] and [search] built on it;
    - the program itself (module [Buster]), function by function, with the
      patterns transcribed from the source.

    Lines are strings of 7-bit characters: the classes [\w], [\s], the case
    mappings, [isupper], [islower] and [isdigit] are the ASCII ones.  A
    character above 127 is outside the model: where Python consults the
    Unicode tables, the model takes it for a symbol that is neither a
    letter, nor a digit, nor whitespace. *)

From Stdlib Require Import Ascii String List Bool Arith NArith Lia.
Import ListNotations.

Set Implicit Arguments.

(** Python strings are sequences of characters; literals are written as Rocq
    strings and read as character lists. *)
Definition str := list ascii.

Coercion list_ascii_of_string : string >-> list.

#[local] Open Scope string_scope.
#[local] Open Scope list_scope.
#[local] Open Scope nat_scope.

(* ================================================================== *)
(** * The fragment of Python's [str] used by the program *)
(* ================================================================== *)

Module Py.

(** [ord(c)] *)
Definition code (c : ascii) : N := N_of_ascii c.

Definition between (lo hi : N) (c : ascii) : bool :=
  (lo <=? code c)%N && (code c <=? hi)%N.

Definition is_upper (c : ascii) : bool := between 65 90 c.
Definition is_lower (c : ascii) : bool := between 97 122 c.
Definition is_digit (c : ascii) : bool := between 48 57 c.

(** [str.isspace] on one character, which is also the class [\s]:
    TAB..CR, FS..US and the space. *)
Definition is_space (c : ascii) : bool := between 9 13 c || between 28 32 c.

Definition underscore : ascii := ascii_of_N 95.
Definition hyphen : ascii := ascii_of_N 45.
Definition newline : ascii := ascii_of_N 10.
Definition squote : ascii := ascii_of_N 39.
Definition dquote : ascii := ascii_of_N 34.

(** The class [\w]. *)
Definition is_word (c : ascii) : bool :=
  is_upper c || is_lower c || is_digit c || Ascii.eqb c underscore.

Definition lower_c (c : ascii) : ascii :=
  if is_upper c then ascii_of_N (code c + 32) else c.

Definition upper_c (c : ascii) : ascii :=
  if is_lower c then ascii_of_N (code c - 32) else c.

(** [s == t] *)
Fixpoint eqb (s t : str) : bool :=
  match s, t with
  | [], [] => true
  | a :: s', b :: t' => Ascii.eqb a b && eqb s' t'
  | _, _ => false
  end.

(** [x in xs] for a list or a set of strings *)
Definition mem (x : str) (xs : list str) : bool := existsb (eqb x) xs.

(** [s.lower()] *)
Definition lower (s : str) : str := map lower_c s.

Fixpoint lstrip (s : str) : str :=
  match s with
  | c :: s' => if is_space c then lstrip s' else s
  | [] => []
  end.

Definition rstrip (s : str) : str := rev (lstrip (rev s)).

(** [s.strip()] *)
Definition strip (s : str) : str := rstrip (lstrip s).

(** [s.replace(c, empty)] for a one-character [c] *)
Definition remove (c : ascii) (s : str) : str :=
  filter (fun x => negb (Ascii.eqb x c)) s.

(** [s.isupper()]: some cased character, and no lowercase one *)
Definition isupper (s : str) : bool :=
  existsb is_upper s && negb (existsb is_lower s).

(** [s.islower()]: some cased character, and no uppercase one *)
Definition islower (s : str) : bool :=
  existsb is_lower s && negb (existsb is_upper s).

(** [s.isdigit()]: not empty, and digits only *)
Definition isdigit (s : str) : bool :=
  match s with
  | [] => false
  | _ => forallb is_digit s
  end.

(** [sep.join(xs)] *)
Fixpoint join (sep : str) (xs : list str) : str :=
  match xs with
  | [] => []
  | [x] => x
  | x :: xs' => x ++ sep ++ join sep xs'
  end.

End Py.

(* ================================================================== *)
(** * The fragment of Python's [re] used by the program *)
(* ================================================================== *)

Module Re.

(** Every quantifier of the program's patterns stands on a one-character
    item ([\s*], [.+?], [\w+], [[\w\s]+], a bracket set followed by [*] or
    [?]), so repetition is over a character set. *)
Inductive regex : Type :=
| Eps
| Chr (c : ascii)                          (* a literal character *)
| Cls (p : ascii -> bool)                  (* a set or a class escape *)
| Seq (r1 r2 : regex)
| Alt (r1 r2 : regex)                      (* r1|r2 *)
| Star (greedy : bool) (p : ascii -> bool) (* p* and p*? *)
| Grp (n : nat) (r : regex)                (* the n-th capture group *)
| Ref (n : nat)                            (* \n *)
| Wb.                                      (* \b *)

(** [.] : anything but a newline *)
Definition dot (c : ascii) : bool := negb (Ascii.eqb c Py.newline).

Definition Plus (greedy : bool) (p : ascii -> bool) : regex :=
  Seq (Cls p) (Star greedy p).

Definition Opt (p : ascii -> bool) : regex := Alt (Cls p) Eps.

(** A literal text, character by character; this is also what
    [re.escape(s)] denotes. *)
Fixpoint lit (s : str) : regex :=
  match s with
  | [] => Eps
  | [c] => Chr c
  | c :: s' => Seq (Chr c) (lit s')
  end.

Fixpoint alts (rs : list regex) : regex :=
  match rs with
  | [] => Eps
  | [r] => r
  | r :: rs' => Alt r (alts rs')
  end.

Fixpoint seqs (rs : list regex) : regex :=
  match rs with
  | [] => Eps
  | [r] => r
  | r :: rs' => Seq r (seqs rs')
  end.

(** The matcher's state: the character left of the cursor (for [\b]), the
    text right of it, and the groups captured so far (latest first). *)
Record mstate : Type := MState {
  prev : option ascii;
  rest : str;
  caps : list (nat * str)
}.

Definition chr_eq (ic : bool) (c x : ascii) : bool :=
  if ic then Ascii.eqb (Py.lower_c c) (Py.lower_c x) else Ascii.eqb c x.

Definition cls_ok (ic : bool) (p : ascii -> bool) (x : ascii) : bool :=
  p x || (ic && (p (Py.lower_c x) || p (Py.upper_c x))).

Definition word_opt (o : option ascii) : bool :=
  match o with
  | Some c => Py.is_word c
  | None => false
  end.

Definition at_boundary (st : mstate) : bool :=
  xorb (word_opt (prev st)) (word_opt (hd_error (rest st))).

Fixpoint group (n : nat) (cs : list (nat * str)) : option str :=
  match cs with
  | [] => None
  | (m, t) :: cs' => if Nat.eqb n m then Some t else group n cs'
  end.

(** The text consumed between two states of one match. *)
Definition taken (st st' : mstate) : str :=
  firstn (length (rest st) - length (rest st')) (rest st).

(** [eat ic t p s]: the state after reading the text [t] off [s] (with the
    cursor's left neighbour [p]), if [s] starts with it. *)
Fixpoint eat (ic : bool) (t : str) (p : option ascii) (s : str)
  : option (option ascii * str) :=
  match t with
  | [] => Some (p, s)
  | c :: t' =>
      match s with
      | x :: s' => if chr_eq ic c x then eat ic t' (Some x) s' else None
      | [] => None
      end
  end.

Section Matcher.

Variable A : Type.
Variable ic : bool.   (* re.IGNORECASE *)

Section Repeat.

Variable ok : ascii -> bool.
Variable cs : list (nat * str).
Variable k : mstate -> option A.

(** Greedy: take one more character first, come back to the continuation. *)
Fixpoint star_greedy (p : option ascii) (s : str) : option A :=
  match s with
  | x :: s' =>
      if ok x then
        match star_greedy (Some x) s' with
        | Some a => Some a
        | None => k (MState p s cs)
        end
      else k (MState p s cs)
  | [] => k (MState p s cs)
  end.

(** Lazy: the continuation first, one more character if it fails. *)
Fixpoint star_lazy (p : option ascii) (s : str) : option A :=
  match k (MState p s cs) with
  | Some a => Some a
  | None =>
      match s with
      | x :: s' => if ok x then star_lazy (Some x) s' else None
      | [] => None
      end
  end.

End Repeat.

(** The backtracking matcher, in continuation-passing style: the first
    success in priority order is the answer. *)
Fixpoint exec (r : regex) (st : mstate) (k : mstate -> option A) : option A :=
  match r with
  | Eps => k st
  | Chr c =>
      match rest st with
      | x :: s' =>
          if chr_eq ic c x then k (MState (Some x) s' (caps st)) else None
      | [] => None
      end
  | Cls p =>
      match rest st with
      | x :: s' =>
          if cls_ok ic p x then k (MState (Some x) s' (caps st)) else None
      | [] => None
      end
  | Seq r1 r2 => exec r1 st (fun st1 => exec r2 st1 k)
  | Alt r1 r2 =>
      match exec r1 st k with
      | Some a => Some a
      | None => exec r2 st k
      end
  | Star true p => star_greedy (cls_ok ic p) (caps st) k (prev st) (rest st)
  | Star false p => star_lazy (cls_ok ic p) (caps st) k (prev st) (rest st)
  | Grp n r1 =>
      exec r1 st
        (fun st1 =>
           k (MState (prev st1) (rest st1) ((n, taken st st1) :: caps st1)))
  | Ref n =>
      match group n (caps st) with
      | Some t =>
          match eat ic t (prev st) (rest st) with
          | Some (p, s') => k (MState p s' (caps st))
          | None => None
          end
      | None => None
      end
  | Wb => if at_boundary st then k st else None
  end.

End Matcher.

(** A match object: the matched text and the captured groups. *)
Record rmatch : Type := RMatch {
  m_text : str;
  m_caps : list (nat * str)
}.

(** [m.group(n)]; the program's groups always take part in the match. *)
Definition m_group (m : rmatch) (n : nat) : str :=
  match group n (m_caps m) with
  | Some t => t
  | None => []
  end.

(** One attempt at the cursor.  [adv] is the scanner's must-advance flag: an
    empty match is refused and the matcher backtracks for another one. *)
Definition try_at (ic : bool) (r : regex) (adv : bool) (p : option ascii)
    (s : str) : option rmatch :=
  exec ic r (MState p s [])
    (fun st' =>
       let n := length s - length (rest st') in
       if adv && Nat.eqb n 0 then None
       else Some (RMatch (firstn n s) (caps st'))).

(** The scanner behind [sub], [findall], [finditer] and [split]: start
    positions are tried from left to right; after a match the scan resumes
    where it ended; after an empty match the same position is tried once
    more for a non-empty one.  The result is the list of matches, each with
    the unmatched text before it, and the unmatched text after the last one.
    [skip] counts the characters of the current match still to walk over,
    [gap] is the unmatched text since the last match (reversed). *)
Fixpoint scan (ic : bool) (r : regex) (skip : nat) (p : option ascii)
    (gap : str) (s : str) : list (str * rmatch) * str :=
  match skip with
  | S n =>
      match s with
      | x :: s' => scan ic r n (Some x) gap s'
      | [] => ([], rev gap)
      end
  | O =>
      let after (m : rmatch) :=
        match s with
        | x :: s' => scan ic r (length (m_text m) - 1) (Some x) [] s'
        | [] => ([], [])
        end in
      match try_at ic r false p s with
      | None =>
          match s with
          | x :: s' => scan ic r 0 (Some x) (x :: gap) s'
          | [] => ([], rev gap)
          end
      | Some m =>
          match m_text m with
          | _ :: _ =>
              let (ms, tl) := after m in ((rev gap, m) :: ms, tl)
          | [] =>
              match try_at ic r true p s with
              | Some m' =>
                  let (ms, tl) := after m' in
                  ((rev gap, m) :: ([], m') :: ms, tl)
              | None =>
                  match s with
                  | x :: s' =>
                      let (ms, tl) := scan ic r 0 (Some x) [x] s' in
                      ((rev gap, m) :: ms, tl)
                  | [] => ([(rev gap, m)], [])
                  end
              end
          end
      end
  end.

Definition scan_all (ic : bool) (r : regex) (s : str)
  : list (str * rmatch) * str :=
  scan ic r 0 None [] s.

(** [re.finditer(r, s)] *)
Definition finditer (ic : bool) (r : regex) (s : str) : list rmatch :=
  map snd (fst (scan_all ic r s)).

(** [re.findall(r, s)] for a pattern without groups: the matched texts *)
Definition findall (ic : bool) (r : regex) (s : str) : list str :=
  map m_text (finditer ic r s).

(** [re.findall(r, s)] for a pattern with two groups: the pairs of groups *)
Definition findall2 (ic : bool) (r : regex) (s : str) : list (str * str) :=
  map (fun m => (m_group m 1, m_group m 2)) (finditer ic r s).

(** [re.sub(r, repl, s)], the replacement given as a function of the match
    (a template such as [\1_\2], or a constant text) *)
Definition sub (ic : bool) (r : regex) (repl : rmatch -> str) (s : str) : str :=
  let (ms, tl) := scan_all ic r s in
  concat (map (fun gm => fst gm ++ repl (snd gm)) ms) ++ tl.

(** [re.split(r, s)] for a pattern without groups *)
Definition split (ic : bool) (r : regex) (s : str) : list str :=
  let (ms, tl) := scan_all ic r s in
  map fst ms ++ [tl].

(** [re.search(r, s)]: the first start position with a match *)
Fixpoint search_from (ic : bool) (r : regex) (p : option ascii) (s : str)
  : option rmatch :=
  match try_at ic r false p s with
  | Some m => Some m
  | None =>
      match s with
      | x :: s' => search_from ic r (Some x) s'
      | [] => None
      end
  end.

Definition search (ic : bool) (r : regex) (s : str) : option rmatch :=
  search_from ic r None s.

End Re.

(* ================================================================== *)
(** * The program *)
(* ================================================================== *)

Module Buster.

Import Re.

Definition const (t : str) : rmatch -> str := fun _ => t.

(** ** Normalization dictionaries *)

(** [\b(w1|w2|...)\b] *)
Definition kw (words : list str) : regex :=
  seqs [Wb; Grp 1 (alts (map lit words)); Wb].

Definition LOGIC_KEYWORDS : list (regex * str) :=
  [ (kw ["IF" : str; "WHENEVER" : str; "PROVIDED THAT" : str;
         "ONLY WHEN" : str], "IF" : str);
    (kw ["AND" : str; "ALSO" : str; "IN ADDITION TO" : str], "AND" : str);
    (kw ["OR" : str; "EITHER" : str; "UNLESS" : str], "OR" : str);
    (kw ["NOT" : str; "IS NOT" : str; "DIFFERENT FROM" : str], "NOT" : str);
    (kw ["EQUALS" : str; "IS SAME AS" : str; "MATCHES" : str], "==" : str);
    (kw ["GREATER THAN" : str; "ABOVE" : str], ">" : str);
    (kw ["LESS THAN" : str; "BELOW" : str], "<" : str);
    (kw ["TRUE" : str; "YES" : str; "ACTIVE" : str], "TRUE" : str);
    (kw ["FALSE" : str; "NO" : str; "INACTIVE" : str], "FALSE" : str);
    (kw ["IS" : str], "==" : str) ].

(** The dict keeps its insertion order, which is the order of the loops
    over [VAR_SYNONYMS.items()]. *)
Definition VAR_SYNONYMS : list (str * list str) :=
  [ ("user_type" : str,
     ["UserType" : str; "user_type" : str; "type_of_user" : str;
      "User_Type" : str; "uset_type" : str]);
    ("account_status" : str,
     ["ACCT_STATUS" : str; "accountStatus" : str; "status_of_account" : str;
      "Acct_Status" : str; "account_status" : str]);
    ("customer_tier" : str,
     ["Customer_Tier" : str; "customerTier" : str; "tier_of_customer" : str;
      "customer_tier" : str]);
    ("purchase_amount" : str,
     ["purchaseAmount" : str; "amount_of_purchase" : str;
      "purchase_amount" : str]);
    ("user_id" : str,
     ["user_ID" : str; "UserId" : str; "userId" : str; "user_id" : str;
      "ID_of_user" : str]);
    ("current_time" : str,
     ["current_TIME" : str; "CurrentTime" : str; "currentTime" : str;
      "current_time" : str; "time_now" : str]);
    ("user_role" : str,
     ["User_Role" : str; "user_role" : str; "role_of_user" : str;
      "userRole" : str]);
    ("item_count" : str,
     ["itemCount" : str; "Item_Count" : str; "count_of_items" : str;
      "item_count" : str]);
    ("item_weight" : str,
     ["item_weight" : str; "ItemWeight" : str; "weight_of_item" : str;
      "itemWeight" : str]);
    ("customer_rating" : str,
     ["customer_rating" : str; "CustomerRating" : str;
      "rating_of_customer" : str; "customerRating" : str]);
    ("user_status" : str,
     ["user_status" : str; "UserStatus" : str; "status_of_user" : str;
      "userStatus" : str]);
    ("is_user_admin" : str,
     ["is_User_Admin" : str; "is_user_admin" : str; "isAdmin" : str;
      "IsUserAdmin" : str]) ].

(** The reverse maps, filled by the loop over the table: the set of the
    lowercased aliases, and the dict from a lowercased alias to its
    canonical name (only its keys are ever consulted). *)
Definition ALL_VAR_NAMES : list str :=
  flat_map (fun e => map Py.lower (snd e)) VAR_SYNONYMS.

Definition VAR_CANONICAL : list (str * str) :=
  flat_map (fun e => map (fun s => (Py.lower s, fst e)) (snd e)) VAR_SYNONYMS.

(** ** Helpers *)

Definition lower_or_digit (c : ascii) : bool := Py.is_lower c || Py.is_digit c.

(** [[\s\-]] *)
Definition space_or_hyphen (c : ascii) : bool :=
  Py.is_space c || Ascii.eqb c Py.hyphen.

(** [([a-z0-9])([A-Z])] and its replacement [\1_\2] *)
Definition camel_pattern : regex :=
  Seq (Grp 1 (Cls lower_or_digit)) (Grp 2 (Cls Py.is_upper)).

Definition camel_repl (m : rmatch) : str :=
  m_group m 1 ++ [Py.underscore] ++ m_group m 2.

(** [[\s\-]+] *)
Definition run_pattern : regex := Plus true space_or_hyphen.

(** The two substitutions, then [s.lower()] *)
Definition to_snake_case (s : str) : str :=
  let s1 := sub false camel_pattern camel_repl s in
  let s2 := sub false run_pattern (const ("_" : str)) s1 in
  Py.lower s2.

(** [var.strip()], then both quote characters replaced by nothing *)
Definition clean (var : str) : str :=
  Py.remove Py.dquote (Py.remove Py.squote (Py.strip var)).

(** The test of one table entry in [normalize_var]. *)
Definition entry_matches (v v_snake : str) (e : str * list str) : bool :=
  Py.mem v (snd e) || Py.mem v_snake (snd e)
  || Py.mem (Py.lower v) (map Py.lower (snd e)).

Definition normalize_var (var : str) : str :=
  let v := clean var in
  let v_snake := to_snake_case v in
  match find (entry_matches v v_snake) VAR_SYNONYMS with
  | Some (canon, _) => canon
  | None => v_snake
  end.

(** The loop over [LOGIC_KEYWORDS], after [IS NOT] has been rewritten. *)
Definition normalize_keywords (line : str) : str :=
  let line :=
    sub true (seqs [Wb; lit "IS NOT"; Wb]) (const ("NOT" : str)) line in
  fold_left (fun l pr => sub true (fst pr) (const (snd pr)) l)
    LOGIC_KEYWORDS line.

(** [[a-zA-Z_]] and [[a-zA-Z0-9_\- ]] *)
Definition ident_start (c : ascii) : bool :=
  Py.is_lower c || Py.is_upper c || Ascii.eqb c Py.underscore.

Definition operand_char (c : ascii) : bool :=
  Py.is_lower c || Py.is_upper c || Py.is_digit c || Ascii.eqb c Py.underscore
  || Ascii.eqb c Py.hyphen || Ascii.eqb c " "%char.

(** Group 1 is [[a-zA-Z_][a-zA-Z0-9_\- ]*]; it is followed by [\s*] and by
    group 2, [(==|!=|>|<|AND|OR|NOT)]. *)
Definition var_pattern : regex :=
  seqs [ Grp 1 (Seq (Cls ident_start) (Star true operand_char));
         Star true Py.is_space;
         Grp 2 (alts [lit "=="; lit "!="; lit ">"; lit "<";
                      lit "AND"; lit "OR"; lit "NOT"]) ].

(** [\b{re.escape(t)}\b] *)
Definition whole_word (t : str) : regex := seqs [Wb; lit t; Wb].

(** The body of the first loop of [normalize_variables], for one match.
    The replacement [norm] is a name made of letters, digits and
    underscores: as a template of [re.sub] it stands for itself. *)
Definition rename_operand (line : str) (m : str * str) : str :=
  let orig := fst m in
  let norm := normalize_var orig in
  if Py.eqb orig norm then line
  else sub false (whole_word orig) (const norm) line.

(** The body of the second loop, for one entry of the table. *)
Definition sweep_entry (line : str) (e : str * list str) : str :=
  fold_left
    (fun l s =>
       if Py.eqb s (fst e) then l
       else sub true (whole_word s) (const (fst e)) l)
    (snd e) line.

Definition normalize_variables (line : str) : str :=
  let matches := findall2 false var_pattern line in
  let line := fold_left rename_operand matches line in
  fold_left sweep_entry VAR_SYNONYMS line.

(** [==\s*TRUE] and [==\s*FALSE], case-insensitive *)
Definition normalize_literals (line : str) : str :=
  let line :=
    sub true (seqs [lit "=="; Star true Py.is_space; lit "TRUE"])
      (const ("== TRUE" : str)) line in
  sub true (seqs [lit "=="; Star true Py.is_space; lit "FALSE"])
    (const ("== FALSE" : str)) line.

(** ** Detectors *)

(** [\b(THEN|DO|ELSE)\b.*] replaced by nothing, then [strip()] *)
Definition clean_condition (c : str) : str :=
  Py.strip
    (sub false
       (seqs [Wb; Grp 1 (alts [lit "THEN"; lit "DO"; lit "ELSE"]); Wb;
              Star true dot])
       (const []) c).

(** The loop over the conditions, with the set [seen] and the list
    [redundants] as its state. *)
Fixpoint redundancy_loop (conds : list str) (seen redundants : list str)
  : list str :=
  match conds with
  | [] => redundants
  | c :: conds' =>
      let c_clean := clean_condition c in
      if Py.mem c_clean seen
      then redundancy_loop conds' seen (redundants ++ [c_clean])
      else redundancy_loop conds' (c_clean :: seen) redundants
  end.

Definition nonempty (s : str) : bool :=
  match s with
  | [] => false
  | _ => true
  end.

(** [\bAND\b|\bOR\b] *)
Definition connective_pattern : regex :=
  Alt (seqs [Wb; lit "AND"; Wb]) (seqs [Wb; lit "OR"; Wb]).

(** The list [conds]: the pieces between the connectives, stripped, the
    blank ones dropped. *)
Definition conditions (line : str) : list str :=
  let conds := split false connective_pattern line in
  map Py.strip (filter (fun c => nonempty (Py.strip c)) conds).

Definition detect_redundancy (line : str) : list str :=
  redundancy_loop (conditions line) [] [].

(** [IF (.+?) == (.+?) (THEN|DO).+ELSE IF \1 == \2] *)
Definition contradiction_pattern : regex :=
  seqs [ lit "IF "; Grp 1 (Plus false dot); lit " == ";
         Grp 2 (Plus false dot); lit " ";
         Grp 3 (Alt (lit "THEN") (lit "DO")); Plus true dot;
         lit "ELSE IF "; Ref 1; lit " == "; Ref 2 ].

Definition detect_contradiction (line : str) : bool :=
  match search false contradiction_pattern line with
  | Some _ => true
  | None => false
  end.

(** [[a-zA-Z0-9_]] *)
Definition ident_char (c : ascii) : bool :=
  Py.is_lower c || Py.is_upper c || Py.is_digit c || Ascii.eqb c Py.underscore.

(** [\b[a-zA-Z_][a-zA-Z0-9_]*\b] *)
Definition token_pattern : regex :=
  seqs [Wb; Cls ident_start; Star true ident_char; Wb].

(** The test that makes [detect_typos] keep a token. *)
Definition typo_test (t : str) : bool :=
  let t_l := Py.lower t in
  if negb (Py.mem t_l ALL_VAR_NAMES) && negb (Py.mem t_l (map fst VAR_CANONICAL))
  then (4 <? length t) && negb (Py.isupper t) && negb (Py.islower t)
  else false.

Definition detect_typos (line : str) : list str :=
  filter typo_test (findall false token_pattern line).

Definition quote_char (c : ascii) : bool :=
  Ascii.eqb c Py.squote || Ascii.eqb c Py.dquote.

Definition word_or_space (c : ascii) : bool := Py.is_word c || Py.is_space c.

(** [(\w+)\s*(==|!=|>|<)\s*(Q?)([\w\s]+)\3], where [Q] is the set of the
    two quote characters *)
Definition illogical_pattern : regex :=
  seqs [ Grp 1 (Plus true Py.is_word); Star true Py.is_space;
         Grp 2 (alts [lit "=="; lit "!="; lit ">"; lit "<"]);
         Star true Py.is_space; Grp 3 (Opt quote_char);
         Grp 4 (Plus true word_or_space); Ref 3 ].

(** The body of the loop of [detect_illogical]: what one match appends. *)
Definition illogical_message (m : rmatch) : list str :=
  let quote := m_group m 3 in
  let val := m_group m 4 in
  if nonempty quote then
    if Py.isdigit (Py.strip val)
    then [("Comparing string literal " : str) ++ [Py.dquote] ++ val
            ++ [Py.dquote] ++ (" as number" : str)]
    else []
  else
    if negb (Py.isdigit (Py.strip val))
    then [("Comparing unquoted value " : str) ++ val ++ (" as string" : str)]
    else [].

Definition detect_illogical (line : str) : list str :=
  flat_map illogical_message (finditer false illogical_pattern line).

(** ** Main processing function *)

Definition normalize (line : str) : str :=
  normalize_literals (normalize_variables (normalize_keywords line)).

Definition process_line (line : str) : list str :=
  let orig_line := Py.strip line in
  let line := normalize orig_line in
  let redundants := detect_redundancy line in
  let contradiction := detect_contradiction line in
  let typos := detect_typos line in
  let illogical := detect_illogical line in
  match redundants with
  | r0 :: _ =>
      [("FLAG: Redundant condition '" : str) ++ r0 ++ ("' in line: " : str)
         ++ orig_line]
  | [] =>
      if contradiction then
        [("FLAG: Contradictory/unreachable logic in line: " : str)
           ++ orig_line]
      else
        match typos with
        | _ :: _ =>
            [("FLAG: Potential typo(s) in variable name(s): " : str)
               ++ Py.join (", " : str) typos ++ (" in line: " : str)
               ++ orig_line]
        | [] =>
            match illogical with
            | _ :: _ =>
                [("FLAG: Illogical comparison: " : str)
                   ++ Py.join (", " : str) illogical ++ (" in line: " : str)
                   ++ orig_line]
            | [] => [line]
            end
        end
  end.

(** The loop of [main] over the lines of the input file: blank lines are
    skipped, every output of [process_line] is printed. *)
Definition run (lines : list str) : list str :=
  flat_map
    (fun line => if nonempty (Py.strip line) then process_line line else [])
    lines.

End Buster.

(* ================================================================== *)
(** * What the matcher computes *)
(* ================================================================== *)

Module Sem.

Import Re.

(** The character left of the cursor after reading [t]. *)
Definition last_char (t : str) (p : option ascii) : option ascii :=
  fold_left (fun _ x => Some x) t p.

(** [den ic r st st']: the pattern [r] can lead the matcher from [st] to
    [st'] (whatever the priorities). *)
Fixpoint den (ic : bool) (r : regex) (st st' : mstate) : Prop :=
  match r with
  | Eps => st' = st
  | Chr c =>
      exists x s', rest st = x :: s' /\ chr_eq ic c x = true /\
                   st' = MState (Some x) s' (caps st)
  | Cls p =>
      exists x s', rest st = x :: s' /\ cls_ok ic p x = true /\
                   st' = MState (Some x) s' (caps st)
  | Seq r1 r2 => exists st1, den ic r1 st st1 /\ den ic r2 st1 st'
  | Alt r1 r2 => den ic r1 st st' \/ den ic r2 st st'
  | Star _ p =>
      exists run s', rest st = run ++ s' /\
                     forallb (cls_ok ic p) run = true /\
                     st' = MState (last_char run (prev st)) s' (caps st)
  | Grp n r1 =>
      exists st1, den ic r1 st st1 /\
                  st' = MState (prev st1) (rest st1)
                          ((n, taken st st1) :: caps st1)
  | Ref n =>
      exists t p s', group n (caps st) = Some t /\
                     eat ic t (prev st) (rest st) = Some (p, s') /\
                     st' = MState p s' (caps st)
  | Wb => at_boundary st = true /\ st' = st
  end.

(** The longest prefix of [s] made of characters of the set [ok], and what
    follows it. *)
Fixpoint span (ok : ascii -> bool) (s : str) : str * str :=
  match s with
  | x :: s' =>
      if ok x then let (run, tl) := span ok s' in (x :: run, tl) else ([], s)
  | [] => ([], [])
  end.

(** [s] does not start with a character of the set [ok]. *)
Definition stops (ok : ascii -> bool) (s : str) : Prop :=
  match s with
  | x :: _ => ok x = false
  | [] => True
  end.

(** The scanner's result with the text [g] put in front of it. *)
Definition add_gap (g : str) (out : list (str * rmatch) * str)
  : list (str * rmatch) * str :=
  match fst out with
  | [] => ([], g ++ snd out)
  | (g0, m) :: ms => ((g ++ g0, m) :: ms, snd out)
  end.

(** The text that [sub] builds from the scanner's result. *)
Definition render (repl : rmatch -> str) (out : list (str * rmatch) * str)
  : str :=
  concat (map (fun gm => fst gm ++ repl (snd gm)) (fst out)) ++ snd out.

(** [sub] with the cursor in the middle of a line: [p] is the character
    left of [s]. *)
Definition sub_from (ic : bool) (r : regex) (repl : rmatch -> str)
    (p : option ascii) (s : str) : str :=
  render repl (scan ic r 0 p [] s).

End Sem.

(* ================================================================== *)
(** * The statements of the specification, as definitions *)
(* ================================================================== *)

Module Spec.

Import Re Buster.

(** ** Example lines *)

Definition quoted (t : str) : str := [Py.dquote] ++ t ++ [Py.dquote].

(** IF user_type IS <admin> AND user_type IS <admin> THEN grant_access,
    where <admin> is the word admin between double quotes *)
Definition example1 : str :=
  ("IF user_type IS " : str) ++ quoted "admin" ++ (" AND user_type IS " : str)
  ++ quoted "admin" ++ (" THEN grant_access" : str).

(** What the three normalization passes make of [example1]. *)
Definition example1_normalized : str :=
  ("IF user_type == " : str) ++ quoted "admin" ++ (" AND user_type == " : str)
  ++ quoted "admin" ++ (" THEN grant_access" : str).

Definition example2 : str := "IF ID_of_user > 100 THEN allow".

(** IF purchase_amount == <50> THEN flag_review, with 50 between double
    quotes *)
Definition example3 : str :=
  ("IF purchase_amount == " : str) ++ quoted "50" ++ (" THEN flag_review" : str).

(** IF accountStatus == activ THEN proceed *)
Definition example4 : str := "IF accountStatus == activ THEN proceed".

(** A line whose second operand is renamed only by a second normalization. *)
Definition twice_line : str := "userName==1 AND userName==2".

(** A canonical name and one of its aliases in the same line. *)
Definition canonical_line : str := "IF user_type==1".
Definition alias_line : str := "IF type_of_user==1".

(** A line with a repeated condition and a mixed-case unknown token. *)
Definition redundant_typo_line : str :=
  "IF x == 1 AND fooBar == 2 AND fooBar == 2 THEN y".

(** A token of five characters without any letter. *)
Definition caseless_token : str := "_1234".

(** The same guard in both branches, the first one followed by another
    condition. *)
Definition nested_guard_line : str :=
  "IF a == 1 AND b == 2 THEN x ELSE IF a == 1 THEN y".

(** Contradictory guards written differently. *)
Definition always_false_line : str := "IF x > 5 THEN a ELSE IF x < 5 THEN b".

(** Two guards on the same variable with different values, the second
    value starting with the first. *)
Definition longer_value_line : str :=
  "IF x == 1 THEN a ELSE IF x == 10 THEN b".

(** A comparison with a quoted value that is not a number. *)
Definition quoted_text_line : str := ("x == " : str) ++ quoted "a-b".

(** A comparison with an unquoted number, followed by an action clause. *)
Definition bare_number_line : str := "x == 100 THEN y".

(** A comparison with an unquoted value that is not made of digits only. *)
Definition decimal_line : str := "x == 5.0".

(** An unregistered identifier as [var_pattern] captures it, with the space
    that precedes the operator. *)
Definition spaced_identifier : str := "foo ".

(** ** The priority rule (section 4.8 and the design notes): an ordered list
    of detectors, each returning an optional Finding; the first Finding
    wins, and the normalized line is the fallback. *)

Definition redundancy_finding (line orig : str) : option str :=
  match detect_redundancy line with
  | r0 :: _ =>
      Some (("FLAG: Redundant condition '" : str) ++ r0
              ++ ("' in line: " : str) ++ orig)
  | [] => None
  end.

Definition contradiction_finding (line orig : str) : option str :=
  if detect_contradiction line
  then Some (("FLAG: Contradictory/unreachable logic in line: " : str) ++ orig)
  else None.

Definition typo_finding (line orig : str) : option str :=
  match detect_typos line with
  | [] => None
  | ts =>
      Some (("FLAG: Potential typo(s) in variable name(s): " : str)
              ++ Py.join (", " : str) ts ++ (" in line: " : str) ++ orig)
  end.

Definition illogical_finding (line orig : str) : option str :=
  match detect_illogical line with
  | [] => None
  | ms =>
      Some (("FLAG: Illogical comparison: " : str) ++ Py.join (", " : str) ms
              ++ (" in line: " : str) ++ orig)
  end.

Definition detectors : list (str -> str -> option str) :=
  [redundancy_finding; contradiction_finding; typo_finding; illogical_finding].

Fixpoint first_finding (ds : list (str -> str -> option str))
    (line orig : str) : option str :=
  match ds with
  | [] => None
  | d :: ds' =>
      match d line orig with
      | Some f => Some f
      | None => first_finding ds' line orig
      end
  end.

(** ** The typo heuristic (section 4.7) *)

Definition canonical_names : list str := map fst VAR_SYNONYMS.
Definition aliases : list str := flat_map snd VAR_SYNONYMS.

(** Present, case-insensitively, among the canonical names or the aliases. *)
Definition known (t : str) : bool :=
  Py.mem (Py.lower t) (map Py.lower canonical_names)
  || Py.mem (Py.lower t) (map Py.lower aliases).

Definition has_upper (t : str) : bool := existsb Py.is_upper t.
Definition has_lower (t : str) : bool := existsb Py.is_lower t.

(** The condition of the specification: unknown, longer than four, and with
    both an uppercase and a lowercase letter. *)
Definition typo_condition (t : str) : bool :=
  negb (known t) && (4 <? length t) && (has_upper t && has_lower t).

(** ** The case-style fallback (section 4.1), in the words of the
    specification *)

(** an underscore between a lowercase or digit character and a following
    uppercase character *)
Fixpoint insert_underscores (s : str) : str :=
  match s with
  | [] => []
  | x :: s' =>
      match s' with
      | y :: _ =>
          if lower_or_digit x && Py.is_upper y
          then x :: Py.underscore :: insert_underscores s'
          else x :: insert_underscores s'
      | [] => [x]
      end
  end.

(** every run of whitespace and hyphens replaced by a single underscore;
    [in_run] tells that the previous character belonged to a run *)
Fixpoint collapse_runs (in_run : bool) (s : str) : str :=
  match s with
  | [] => []
  | x :: s' =>
      if space_or_hyphen x
      then if in_run then collapse_runs true s'
           else Py.underscore :: collapse_runs true s'
      else x :: collapse_runs false s'
  end.

Definition case_style_fallback (s : str) : str :=
  Py.lower (collapse_runs false (insert_underscores s)).

(** No entry of the Synonym Table matches [v]: neither exactly, nor through
    its case-style form, nor case-insensitively. *)
Definition unregistered (v : str) : Prop :=
  forall canon syns, In (canon, syns) VAR_SYNONYMS ->
    ~ In v syns /\ ~ In (to_snake_case v) syns
    /\ ~ In (Py.lower v) (map Py.lower syns).

(** ** The contradiction shape (section 4.6) *)

Definition then_or_do (kw : str) : Prop :=
  kw = ("THEN" : str) \/ kw = ("DO" : str).

Definition one_line (t : str) : Prop := ~ In Py.newline t.

(** The shape as the specification writes it,
    IF <var> == <val> ... THEN|DO ... ELSE IF <var> == <val>,
    each ellipsis standing for any text. *)
Definition written_shape (line : str) : Prop :=
  exists pre var val gap kw mid post,
    var <> [] /\ val <> [] /\ then_or_do kw /\
    line = pre ++ ("IF " : str) ++ var ++ (" == " : str) ++ val ++ gap ++ kw
           ++ mid ++ ("ELSE IF " : str) ++ var ++ (" == " : str) ++ val ++ post.

(** The shape the pattern matches: one space and then THEN or DO right after
    the value, some text before ELSE IF, and no newline in the matched
    parts. *)
Definition matched_shape (line : str) : Prop :=
  exists pre var val kw mid post,
    var <> [] /\ val <> [] /\ mid <> [] /\
    one_line var /\ one_line val /\ one_line mid /\ then_or_do kw /\
    line = pre ++ ("IF " : str) ++ var ++ (" == " : str) ++ val ++ (" " : str)
           ++ kw ++ mid ++ ("ELSE IF " : str) ++ var ++ (" == " : str) ++ val
           ++ post.

(** ** The value examined by the illogical-comparison detector *)

Definition comparison_ops : list str :=
  ["==" : str; "!=" : str; ">" : str; "<" : str].

(** In the line, the match [m] ends with its value (group 4), a non-empty
    run of word and whitespace characters that stands after a comparison
    operator and the whitespace following it, and that cannot be extended:
    the line ends there, or goes on with another kind of character. *)
Definition value_is_maximal_run (line : str) (m : rmatch) : Prop :=
  exists pre tok ws1 op ws2 tail,
    line = pre ++ m_text m ++ tail /\
    m_text m = tok ++ ws1 ++ op ++ ws2 ++ m_group m 4 /\
    In op comparison_ops /\
    forallb Py.is_space ws2 = true /\
    m_group m 4 <> [] /\
    forallb word_or_space (m_group m 4) = true /\
    Sem.stops word_or_space tail.

(** The text of a match [m] of the detector's pattern is a comparison:
    a token, an operator, and a value that stands between two copies of
    group 3, which is empty or one quote character; whitespace may stand
    on both sides of the operator. *)
Definition comparison_shape (m : rmatch) : Prop :=
  exists tok ws1 op ws2,
    m_text m = tok ++ ws1 ++ op ++ ws2 ++ m_group m 3 ++ m_group m 4
               ++ m_group m 3 /\
    tok <> [] /\ forallb Py.is_word tok = true /\
    forallb Py.is_space ws1 = true /\
    In op comparison_ops /\
    forallb Py.is_space ws2 = true /\
    (m_group m 3 = [] \/ exists c, quote_char c = true /\ m_group m 3 = [c]) /\
    m_group m 4 <> [] /\
    forallb word_or_space (m_group m 4) = true.

(** <var> <op> <digits> THEN|DO <action>, with single spaces *)
Definition guarded_line (var op digits kw action : str) : str :=
  var ++ (" " : str) ++ op ++ (" " : str) ++ digits ++ (" " : str) ++ kw
  ++ (" " : str) ++ action.

(** What follows the operator in such a line. *)
Definition guarded_value (digits kw action : str) : str :=
  digits ++ (" " : str) ++ kw ++ (" " : str) ++ action.

End Spec.


(* ================================================================== *)
(** * Further properties of the program, as definitions *)
(* ================================================================== *)

Module Props.

Import Re Buster.

(** A line that [main] does not skip. *)
Definition nonblank (line : str) : bool := nonempty (Py.strip line).

(** A character that [to_snake_case] never leaves in its result. *)
Definition snake_excluded (c : ascii) : bool :=
  Py.is_upper c || space_or_hyphen c.

(** A character that [to_snake_case] may leave in its result. *)
Definition plain (c : ascii) : bool := negb (snake_excluded c).

(** A text without quote characters. *)
Definition unquoted (t : str) : bool :=
  forallb (fun c => negb (quote_char c)) t.

(** A character of a normalized name. *)
Definition safe (c : ascii) : bool := plain c && negb (quote_char c).

(** The canonical names and their aliases, pair by pair. *)
Definition alias_pairs : list (str * str) :=
  flat_map (fun e => map (fun a => (fst e, a)) (snd e)) VAR_SYNONYMS.

(** A text without its underscores. *)
Definition drop_underscores (s : str) : str :=
  filter (fun c => negb (Ascii.eqb c Py.underscore)) s.

(** [t] occurs in [line]. *)
Definition occurs (t line : str) : Prop :=
  exists pre post, line = pre ++ t ++ post.

(** [t] occurs in [line] as a whole word: no word character stands right
    before it or right after it. *)
Definition occurs_as_word (t line : str) : Prop :=
  exists pre post,
    line = pre ++ t ++ post /\
    word_opt (Sem.last_char pre None) = false /\
    Sem.stops Py.is_word post.

(** An identifier: a letter or an underscore, then letters, digits and
    underscores. *)
Definition identifier (t : str) : Prop :=
  exists c t', t = c :: t' /\ ident_start c = true /\
               forallb ident_char t' = true.

(** <var> <op> <value>, with single spaces, up to the end of the line *)
Definition comparison_line (var op value : str) : str :=
  var ++ (" " : str) ++ op ++ (" " : str) ++ value.

(** A letter, of either case, or an underscore. *)
Definition letterish (c : ascii) : bool :=
  Py.is_upper c || Py.is_lower c || Ascii.eqb c Py.underscore.

(** A line without letters and underscores. *)
Definition symbols_only (line : str) : bool :=
  forallb (fun c => negb (letterish c)) line.

(** Whatever the pattern [r] matches, a letter or an underscore stands in
    the text at the cursor. *)
Definition wants_letter (ic : bool) (r : regex) : Prop :=
  forall st st', Sem.den ic r st st' ->
    exists x, In x (rest st) /\ letterish x = true.

(** The first character of a text is a letter or an underscore. *)
Definition starts_letterish (t : str) : bool :=
  match t with
  | c :: _ => letterish c
  | [] => false
  end.

(** The characters that the normalization passes write, change or drop:
    letters, whitespace, and the five characters _ - = < and >. *)
Definition fragile (c : ascii) : bool :=
  Py.is_upper c || Py.is_lower c || Py.is_space c
  || Ascii.eqb c Py.underscore || Ascii.eqb c Py.hyphen
  || Ascii.eqb c "="%char || Ascii.eqb c "<"%char || Ascii.eqb c ">"%char.

(** Every other character: digits, quotes, brackets, the rest of the
    punctuation. *)
Definition kept (c : ascii) : bool := negb (fragile c).

(** All the characters. *)
Definition all_ascii : list ascii :=
  map (fun n => ascii_of_N (N.of_nat n)) (seq 0 256).

(** Every character that passes the test [f] is in the set [ok]. *)
Definition all_in (f ok : ascii -> bool) : bool :=
  forallb (fun x => implb (f x) (ok x)) all_ascii.

(** The pattern [r] reads characters of the set [ok] only. *)
Fixpoint within (ic : bool) (ok : ascii -> bool) (r : regex) : bool :=
  match r with
  | Eps => true
  | Wb => true
  | Chr c => all_in (chr_eq ic c) ok
  | Cls p => all_in (cls_ok ic p) ok
  | Star _ p => all_in (cls_ok ic p) ok
  | Seq r1 r2 => within ic ok r1 && within ic ok r2
  | Alt r1 r2 => within ic ok r1 && within ic ok r2
  | Grp _ r1 => within ic ok r1
  | Ref _ => false
  end.

(** [==\s*w], as [normalize_literals] has it for [TRUE] and [FALSE] *)
Definition literal_pattern (w : str) : regex :=
  seqs [lit "=="; Star true Py.is_space; lit w].

(** A text without the character [=]. *)
Definition no_equals (t : str) : bool :=
  forallb (fun c => negb (Ascii.eqb c "="%char)) t.

End Props.

Module ReFacts.

Import Re Sem.

Lemma last_char_app (t u : str) (p : option ascii) :
  last_char (t ++ u) p = last_char u (last_char t p).
Proof. unfold last_char. apply fold_left_app. Qed.

Lemma last_char_cons (x : ascii) (t : str) (p : option ascii) :
  last_char (x :: t) p = last_char t (Some x).
Proof. reflexivity. Qed.

Section Exec.

Variable A : Type.
Variable ic : bool.

Lemma star_greedy_sound (ok : ascii -> bool) cs (k : mstate -> option A) a :
  forall s p,
    star_greedy ok cs k p s = Some a ->
    exists run s', s = run ++ s' /\ forallb ok run = true /\
                   k (MState (last_char run p) s' cs) = Some a.
Proof.
  induction s as [|x s IH]; intros p H; simpl in H.
  - exists [], []. auto.
  - destruct (ok x) eqn:Hx.
    + destruct (star_greedy ok cs k (Some x) s) eqn:Hg.
      * injection H as ->. destruct (IH _ Hg) as (run & s' & -> & Hr & Hk).
        exists (x :: run), s'. simpl. rewrite Hx, Hr. auto.
      * exists [], (x :: s). auto.
    + exists [], (x :: s). auto.
Qed.

Lemma star_lazy_sound (ok : ascii -> bool) cs (k : mstate -> option A) a :
  forall s p,
    star_lazy ok cs k p s = Some a ->
    exists run s', s = run ++ s' /\ forallb ok run = true /\
                   k (MState (last_char run p) s' cs) = Some a.
Proof.
  induction s as [|x s IH]; intros p H; simpl in H.
  - destruct (k (MState p [] cs)) eqn:Hk; [|discriminate].
    injection H as ->. exists [], []. auto.
  - destruct (k (MState p (x :: s) cs)) eqn:Hk.
    + injection H as ->. exists [], (x :: s). auto.
    + destruct (ok x) eqn:Hx; [|discriminate].
      destruct (IH _ H) as (run & s' & -> & Hr & Hk').
      exists (x :: run), s'. simpl. rewrite Hx, Hr. auto.
Qed.

Lemma star_greedy_complete (ok : ascii -> bool) cs (k : mstate -> option A) :
  forall run s' p,
    forallb ok run = true ->
    k (MState (last_char run p) s' cs) <> None ->
    star_greedy ok cs k p (run ++ s') <> None.
Proof.
  induction run as [|x run IH]; intros s' p Hr Hk.
  - simpl in *. destruct s' as [|y s']; simpl; auto.
    destruct (ok y); auto.
    destruct (star_greedy ok cs k (Some y) s'); auto. discriminate.
  - simpl in Hr. apply andb_prop in Hr as [Hx Hr]. simpl. rewrite Hx.
    specialize (IH s' (Some x) Hr Hk).
    destruct (star_greedy ok cs k (Some x) (run ++ s')); [discriminate|].
    contradiction.
Qed.

Lemma star_lazy_complete (ok : ascii -> bool) cs (k : mstate -> option A) :
  forall run s' p,
    forallb ok run = true ->
    k (MState (last_char run p) s' cs) <> None ->
    star_lazy ok cs k p (run ++ s') <> None.
Proof.
  induction run as [|x run IH]; intros s' p Hr Hk.
  - simpl in *. destruct s' as [|y s']; simpl;
      destruct (k _); auto; discriminate.
  - simpl in Hr. apply andb_prop in Hr as [Hx Hr]. simpl.
    destruct (k (MState p (x :: run ++ s') cs)); [discriminate|].
    rewrite Hx. apply IH; assumption.
Qed.

(** A result of the matcher is a result of its continuation, at a state the
    pattern leads to. *)
Lemma exec_sound (r : regex) :
  forall st (k : mstate -> option A) a,
    exec ic r st k = Some a ->
    exists st', den ic r st st' /\ k st' = Some a.
Proof.
  induction r as [|c|p|r1 IH1 r2 IH2|r1 IH1 r2 IH2|g p|n r1 IH1|n|];
    intros st k a H; simpl in H.
  - exists st. simpl. auto.
  - destruct (rest st) as [|x s'] eqn:Hs; [discriminate|].
    destruct (chr_eq ic c x) eqn:Hc; [|discriminate].
    eexists. split; [|exact H]. simpl. eauto.
  - destruct (rest st) as [|x s'] eqn:Hs; [discriminate|].
    destruct (cls_ok ic p x) eqn:Hc; [|discriminate].
    eexists. split; [|exact H]. simpl. eauto.
  - apply IH1 in H as (st1 & H1 & H). apply IH2 in H as (st2 & H2 & H).
    exists st2. split; [|exact H]. simpl. eauto.
  - destruct (exec ic r1 st k) eqn:H1.
    + injection H as ->. apply IH1 in H1 as (st' & H1 & Hk).
      exists st'. simpl. auto.
    + apply IH2 in H as (st' & H2 & Hk). exists st'. simpl. auto.
  - destruct g.
    + apply star_greedy_sound in H as (run & s' & Hs & Hr & Hk).
      eexists. split; [|exact Hk]. simpl. eauto.
    + apply star_lazy_sound in H as (run & s' & Hs & Hr & Hk).
      eexists. split; [|exact Hk]. simpl. eauto.
  - apply IH1 in H as (st1 & H1 & H).
    eexists. split; [|exact H]. simpl. eauto.
  - destruct (group n (caps st)) as [t|] eqn:Hg; [|discriminate].
    destruct (eat ic t (prev st) (rest st)) as [[p s']|] eqn:He; [|discriminate].
    eexists. split; [|exact H]. simpl. eauto 6.
  - destruct (at_boundary st) eqn:Hb; [|discriminate].
    exists st. simpl. auto.
Qed.

(** Backtracking is exhaustive: if the pattern leads to a state at which
    the continuation succeeds, the matcher succeeds. *)
Lemma exec_complete (r : regex) :
  forall st st' (k : mstate -> option A),
    den ic r st st' -> k st' <> None -> exec ic r st k <> None.
Proof.
  induction r as [|c|p|r1 IH1 r2 IH2|r1 IH1 r2 IH2|g p|n r1 IH1|n|];
    intros st st' k D Hk; simpl in D |- *.
  - subst. exact Hk.
  - destruct D as (x & s' & -> & -> & ->). exact Hk.
  - destruct D as (x & s' & -> & -> & ->). exact Hk.
  - destruct D as (st1 & D1 & D2).
    apply (IH1 _ _ _ D1). apply (IH2 _ _ _ D2). exact Hk.
  - destruct D as [D|D].
    + specialize (IH1 _ _ _ D Hk).
      destruct (exec ic r1 st k); [discriminate|contradiction].
    + destruct (exec ic r1 st k); [discriminate|].
      apply (IH2 _ _ _ D Hk).
  - destruct D as (run & s' & -> & Hr & ->). destruct g.
    + apply star_greedy_complete; assumption.
    + apply star_lazy_complete; assumption.
  - destruct D as (st1 & D1 & ->). apply (IH1 _ _ _ D1). exact Hk.
  - destruct D as (t & p & s' & -> & -> & ->). exact Hk.
  - destruct D as [-> ->]. exact Hk.
Qed.

(** Greedy repetition stops at the longest run when the continuation
    accepts it. *)
Lemma star_greedy_longest (ok : ascii -> bool) cs (k : mstate -> option A) a :
  forall run s' p,
    forallb ok run = true -> stops ok s' ->
    k (MState (last_char run p) s' cs) = Some a ->
    star_greedy ok cs k p (run ++ s') = Some a.
Proof.
  induction run as [|x run IH]; intros s' p Hr Hs Hk.
  - simpl in *. destruct s' as [|y s']; simpl; auto.
    simpl in Hs. rewrite Hs. exact Hk.
  - simpl in Hr. apply andb_prop in Hr as [Hx Hr]. simpl. rewrite Hx.
    rewrite (IH s' (Some x) Hr Hs Hk). reflexivity.
Qed.

End Exec.

Lemma firstn_app_length (t u : str) :
  firstn (length (t ++ u) - length u) (t ++ u) = t.
Proof.
  rewrite length_app, Nat.add_sub.
  rewrite firstn_app, Nat.sub_diag, firstn_all. simpl. apply app_nil_r.
Qed.

Lemma taken_app (st st' : mstate) (t : str) :
  rest st = t ++ rest st' -> taken st st' = t.
Proof. intros H. unfold taken. rewrite H. apply firstn_app_length. Qed.

Lemma taken_cons (p p' : option ascii) (x : ascii) (s : str)
    (cs cs' : list (nat * str)) :
  taken (MState p (x :: s) cs) (MState p' s cs') = [x].
Proof. apply (taken_app _ _ [x]). reflexivity. Qed.

Lemma chr_eq_exact (c x : ascii) : chr_eq false c x = true <-> c = x.
Proof. unfold chr_eq. apply Ascii.eqb_eq. Qed.

Lemma cls_ok_exact (p : ascii -> bool) (x : ascii) : cls_ok false p x = p x.
Proof. unfold cls_ok. simpl. apply orb_false_r. Qed.

Lemma forallb_cls_ok_exact (p : ascii -> bool) (run : str) :
  forallb (cls_ok false p) run = forallb p run.
Proof.
  induction run as [|x run IH]; simpl; auto.
  rewrite cls_ok_exact, IH. reflexivity.
Qed.

(** Reading a text off the subject: what is read has the length of the
    text, and is the text itself when case matters. *)
Lemma eat_split (ic : bool) :
  forall t p s p' s',
    eat ic t p s = Some (p', s') ->
    exists u, s = u ++ s' /\ p' = last_char u p /\ length u = length t /\
              (ic = false -> u = t).
Proof.
  induction t as [|c t IH]; intros p s p' s' H; simpl in H.
  - injection H as <- <-. exists []. auto.
  - destruct s as [|x s]; [discriminate|].
    destruct (chr_eq ic c x) eqn:Hc; [|discriminate].
    destruct (IH _ _ _ _ H) as (u & -> & -> & Hl & Hu).
    exists (x :: u). repeat split; simpl; auto.
    intros ->. apply chr_eq_exact in Hc. subst. f_equal. auto.
Qed.

Lemma eat_exact :
  forall t p s, eat false t p (t ++ s) = Some (last_char t p, s).
Proof.
  induction t as [|c t IH]; intros p s; simpl; auto.
  unfold chr_eq. rewrite Ascii.eqb_refl. apply IH.
Qed.

(** A pattern only moves the cursor to the right, over the text it reads. *)
Lemma den_rest (ic : bool) (r : regex) :
  forall st st', den ic r st st' ->
    exists t, rest st = t ++ rest st' /\ prev st' = last_char t (prev st).
Proof.
  induction r as [|c|p|r1 IH1 r2 IH2|r1 IH1 r2 IH2|g p|n r1 IH1|n|];
    intros st st' D; simpl in D.
  - subst. exists []. auto.
  - destruct D as (x & s' & -> & _ & ->). exists [x]. auto.
  - destruct D as (x & s' & -> & _ & ->). exists [x]. auto.
  - destruct D as (st1 & D1 & D2).
    destruct (IH1 _ _ D1) as (t1 & E1 & P1).
    destruct (IH2 _ _ D2) as (t2 & E2 & P2).
    exists (t1 ++ t2). rewrite <- app_assoc, <- E2, last_char_app, <- P1. auto.
  - destruct D as [D|D]; eauto.
  - destruct D as (run & s' & -> & _ & ->). exists run. auto.
  - destruct D as (st1 & D1 & ->).
    destruct (IH1 _ _ D1) as (t & E & P). exists t. simpl. auto.
  - destruct D as (t & p & s' & _ & He & ->).
    apply eat_split in He as (u & -> & -> & _). exists u. auto.
  - destruct D as [_ ->]. exists []. auto.
Qed.

(** A literal text, case mattering, reads exactly itself. *)
Lemma den_lit (t : str) :
  forall st st',
    den false (lit t) st st' <->
    exists s', rest st = t ++ s' /\
               st' = MState (last_char t (prev st)) s' (caps st).
Proof.
  induction t as [|c t IH]; intros [p s cs] st'; simpl rest; simpl prev;
    simpl caps.
  - simpl. split.
    + intros ->. exists s. auto.
    + intros (s' & E & ->). subst. auto.
  - destruct t as [|c' t'].
    + simpl. split.
      * intros (x & s' & E & Hc & ->). apply chr_eq_exact in Hc. subst.
        exists s'. auto.
      * intros (s' & E & ->). exists c, s'. rewrite chr_eq_exact. auto.
    + change (lit (c :: c' :: t')) with (Seq (Chr c) (lit (c' :: t'))).
      cbn [den]. split.
      * intros (st1 & (x & s1 & E & Hc & ->) & D2).
        apply chr_eq_exact in Hc. subst x.
        apply IH in D2 as (s' & E2 & ->). simpl in E, E2. subst s1 s.
        exists s'. auto.
      * intros (s' & E & ->).
        exists (MState (Some c) (c' :: t' ++ s') cs). split.
        -- exists c, (c' :: t' ++ s'). rewrite chr_eq_exact. auto.
        -- apply IH. exists s'. auto.
Qed.

(** One or more characters of a set. *)
Lemma den_plus (g : bool) (p : ascii -> bool) :
  forall st st',
    den false (Plus g p) st st' <->
    exists run s', run <> [] /\ rest st = run ++ s' /\
                   forallb p run = true /\
                   st' = MState (last_char run (prev st)) s' (caps st).
Proof.
  intros st st'. unfold Plus. cbn [den]. split.
  - intros (st1 & (x & s1 & E & Hc & ->) & (run & s' & E2 & Hr & ->)).
    simpl in *. subst s1. exists (x :: run), s'. rewrite cls_ok_exact in Hc.
    repeat split; auto; try discriminate.
    simpl. rewrite Hc. simpl. rewrite <- forallb_cls_ok_exact. exact Hr.
  - intros (run & s' & Hn & E & Hr & ->).
    destruct run as [|x run]; [contradiction|]. simpl in Hr.
    apply andb_prop in Hr as [Hx Hr].
    exists (MState (Some x) (run ++ s') (caps st)). split.
    + exists x, (run ++ s'). rewrite cls_ok_exact. auto.
    + exists run, s'. simpl. repeat split; auto.
      rewrite forallb_cls_ok_exact. exact Hr.
Qed.

Lemma span_spec (ok : ascii -> bool) :
  forall s, s = fst (span ok s) ++ snd (span ok s) /\
            forallb ok (fst (span ok s)) = true /\ stops ok (snd (span ok s)).
Proof.
  induction s as [|x s (E & F & S)]; simpl; auto.
  destruct (ok x) eqn:Hx; simpl; auto.
  destruct (span ok s) as [t tl]. simpl in *. rewrite Hx, F. subst. auto.
Qed.

End ReFacts.

Module ContradictionFacts.

Import Re Sem ReFacts Buster Spec.

Lemma try_at_some (ic : bool) (r : regex) (p : option ascii) (s : str) :
  try_at ic r false p s <> None <->
  exists st', den ic r (MState p s []) st'.
Proof.
  unfold try_at. split.
  - destruct (exec _ _ _ _) as [m|] eqn:H; [|contradiction].
    intros _. apply exec_sound in H as (st' & D & _). eauto.
  - intros (st' & D). apply exec_complete with (st' := st'); [exact D|].
    discriminate.
Qed.

Lemma search_from_some (ic : bool) (r : regex) :
  forall s p,
    search_from ic r p s <> None <->
    exists pre s' st',
      s = pre ++ s' /\ den ic r (MState (last_char pre p) s' []) st'.
Proof.
  induction s as [|x s IH]; intros p; simpl.
  - destruct (try_at ic r false p []) as [m|] eqn:H.
    + split; [intros _|discriminate].
      assert (T : try_at ic r false p [] <> None) by (rewrite H; discriminate).
      apply try_at_some in T as (st' & D). exists [], [], st'. auto.
    + split; [contradiction|]. intros (pre & s' & st' & E & D).
      symmetry in E. apply app_eq_nil in E as [-> ->].
      assert (T : try_at ic r false p [] <> None)
        by (apply try_at_some; eauto).
      contradiction.
  - destruct (try_at ic r false p (x :: s)) as [m|] eqn:H.
    + split; [intros _|discriminate].
      assert (T : try_at ic r false p (x :: s) <> None)
        by (rewrite H; discriminate).
      apply try_at_some in T as (st' & D). exists [], (x :: s), st'. auto.
    + rewrite IH. split.
      * intros (pre & s' & st' & -> & D). exists (x :: pre), s', st'. auto.
      * intros (pre & s' & st' & E & D). destruct pre as [|y pre].
        -- simpl in E. subst s'.
           assert (T : try_at ic r false p (x :: s) <> None)
             by (apply try_at_some; eauto).
           contradiction.
        -- injection E as <- ->. exists pre, s', st'. auto.
Qed.

Lemma forallb_dot (t : str) : forallb dot t = true <-> one_line t.
Proof.
  unfold one_line, dot. induction t as [|x t IH]; simpl.
  - split; auto.
  - rewrite andb_true_iff, IH, negb_true_iff, Ascii.eqb_neq. split.
    + intros [Hx Ht] [E|E]; auto.
    + intros H. split; auto.
Qed.

Lemma den_contradiction_pattern (p : option ascii) (s : str) :
  (exists st', den false contradiction_pattern (MState p s []) st') <->
  exists var val kw mid post,
    var <> [] /\ val <> [] /\ mid <> [] /\
    one_line var /\ one_line val /\ one_line mid /\ then_or_do kw /\
    s = ("IF " : str) ++ var ++ (" == " : str) ++ val ++ (" " : str)
        ++ kw ++ mid ++ ("ELSE IF " : str) ++ var ++ (" == " : str) ++ val
        ++ post.
Proof.
  unfold contradiction_pattern. cbn [seqs den]. split.
  - intros (st' & st1 & D1 & st2 & (st2' & D2 & ->) & st3 & D3 & st4 &
            (st4' & D4 & ->) & st5 & D5 & st6 & (st6' & D6 & ->) & st7 & D7 &
            st8 & D8 & st9 & D9 & st10 & D10 & D11).
    apply den_lit in D1 as (s1 & E1 & ->). simpl in E1. subst s.
    apply den_plus in D2 as (var & s2 & Hvar & E2 & Fvar & ->).
    simpl in E2. subst s1.
    rewrite (taken_app _ _ var) in D3 by reflexivity.
    apply den_lit in D3 as (s3 & E3 & ->). simpl in E3. subst s2.
    apply den_plus in D4 as (val & s4 & Hval & E4 & Fval & ->).
    simpl in E4. subst s3.
    rewrite (taken_app _ _ val) in D5 by reflexivity.
    apply den_lit in D5 as (s5 & E5 & ->). simpl in E5. subst s4.
    assert (K : exists kw0 s6, then_or_do kw0 /\ s5 = kw0 ++ s6 /\
                  st6' = MState (last_char kw0 (Some " "%char)) s6
                           [(2, val); (1, var)]).
    { destruct D6 as [D6|D6]; apply den_lit in D6 as (s6 & E6 & ->);
        simpl in E6; subst s5; eexists; exists s6; unfold then_or_do;
        repeat split; eauto. }
    clear D6. destruct K as (kw0 & s6 & Hkw & -> & ->).
    rewrite (taken_app _ _ kw0) in D7 by reflexivity.
    apply den_plus in D7 as (mid & s7 & Hmid & E7 & Fmid & ->).
    simpl in E7. subst s6.
    apply den_lit in D8 as (s8 & E8 & ->). simpl in E8. subst s7.
    destruct D9 as (t1 & p1 & s9 & G1 & T1 & ->). simpl in G1, T1.
    injection G1 as <-.
    apply eat_split in T1 as (u1 & -> & -> & _ & U1).
    rewrite (U1 eq_refl) in *.
    apply den_lit in D10 as (s10 & E10 & ->). simpl in E10. subst s9.
    destruct D11 as (t2 & p2 & s11 & G2 & T2 & ->). simpl in G2, T2.
    injection G2 as <-.
    apply eat_split in T2 as (u2 & -> & -> & _ & U2).
    rewrite (U2 eq_refl) in *.
    exists var, val, kw0, mid, s11.
    rewrite <- !forallb_dot. repeat split; auto.
  - intros (var & val & kw0 & mid & post & Hvar & Hval & Hmid & Fvar & Fval &
            Fmid & Hkw & ->).
    rewrite <- forallb_dot in Fvar, Fval, Fmid.
    assert (L : forall t q u cs,
               den false (lit t) (MState q (t ++ u) cs)
                 (MState (last_char t q) u cs)).
    { intros. apply den_lit. exists u. auto. }
    assert (P : forall g t q u cs,
               t <> [] -> forallb dot t = true ->
               den false (Plus g dot) (MState q (t ++ u) cs)
                 (MState (last_char t q) u cs)).
    { intros. apply den_plus. exists t, u. auto. }
    destruct Hkw as [-> | ->].
    all: eexists; eexists; (split; [apply L|]).
    all: eexists; (split; [eexists; split;
                             [apply (P false var); assumption|reflexivity]|]).
    all: cbn [prev rest caps]; rewrite (taken_app _ _ var) by reflexivity.
    all: eexists; (split; [apply L|]).
    all: eexists; (split; [eexists; split;
                             [apply (P false val); assumption|reflexivity]|]).
    all: cbn [prev rest caps]; rewrite (taken_app _ _ val) by reflexivity.
    all: eexists; (split; [apply L|]).
    all: eexists; (split; [eexists; split;
                             [first [left; apply L|right; apply L]
                             |reflexivity]|]).
    all: cbn [prev rest caps]; erewrite taken_app by reflexivity.
    all: eexists; (split; [apply (P true mid); assumption|]).
    all: eexists; (split; [apply L|]).
    all: eexists; (split; [exists var; eexists; eexists;
                           (split; [reflexivity|]);
                           (split; [apply eat_exact|reflexivity])|]).
    all: eexists; (split; [apply L|]).
    all: exists val; eexists; eexists; (split; [reflexivity|]);
         (split; [apply eat_exact|reflexivity]).
Qed.

End ContradictionFacts.

Module ScanFacts.

Import Re Sem ReFacts.

Section Scan.

Variable ic : bool.
Variable r : regex.

Lemma add_gap_nil (out : list (str * rmatch) * str) : add_gap [] out = out.
Proof. destruct out as [[|[g m] ms] tl]; reflexivity. Qed.

Lemma add_gap_app (g h : str) (out : list (str * rmatch) * str) :
  add_gap (g ++ h) out = add_gap g (add_gap h out).
Proof.
  destruct out as [[|[g0 m] ms] tl]; unfold add_gap; simpl;
    rewrite <- app_assoc; reflexivity.
Qed.

(** The unmatched text carried by the scanner is prefixed to its result. *)
Lemma scan_gap :
  forall s skip p gap,
    scan ic r skip p gap s = add_gap (rev gap) (scan ic r skip p [] s).
Proof.
  induction s as [|x s IH]; intros skip p gap.
  - destruct skip as [|n]; simpl.
    + destruct (try_at ic r false p []) as [m|].
      * destruct (m_text m).
        -- destruct (try_at ic r true p []); unfold add_gap; simpl;
             rewrite ?app_nil_r; reflexivity.
        -- unfold add_gap; simpl. rewrite app_nil_r. reflexivity.
      * unfold add_gap; simpl. rewrite app_nil_r. reflexivity.
    + unfold add_gap; simpl. rewrite app_nil_r. reflexivity.
  - destruct skip as [|n].
    + simpl. destruct (try_at ic r false p (x :: s)) as [m|].
      * destruct (m_text m) as [|c t].
        -- destruct (try_at ic r true p (x :: s)) as [m'|].
           ++ destruct (scan ic r (length (m_text m') - 1) (Some x) [] s).
              unfold add_gap; simpl. rewrite app_nil_r. reflexivity.
           ++ destruct (scan ic r 0 (Some x) [x] s). unfold add_gap; simpl.
              rewrite app_nil_r. reflexivity.
        -- destruct (scan ic r (length (c :: t) - 1) (Some x) [] s).
           unfold add_gap; simpl. rewrite app_nil_r. reflexivity.
      * rewrite (IH 0 (Some x) (x :: gap)), (IH 0 (Some x) [x]).
        simpl rev. rewrite add_gap_app. reflexivity.
    + simpl. apply IH.
Qed.

Lemma scan_skip :
  forall u s p gap,
    scan ic r (length u) p gap (u ++ s) = scan ic r 0 (last_char u p) gap s.
Proof.
  induction u as [|x u IH]; intros s p gap; simpl.
  - reflexivity.
  - apply IH.
Qed.

Lemma scan_miss (p : option ascii) (gap : str) (x : ascii) (s : str) :
  try_at ic r false p (x :: s) = None ->
  scan ic r 0 p gap (x :: s) = add_gap (rev gap ++ [x]) (scan ic r 0 (Some x) [] s).
Proof.
  intros H. simpl. rewrite H. rewrite scan_gap. reflexivity.
Qed.

Lemma scan_end (p : option ascii) (gap : str) :
  try_at ic r false p [] = None -> scan ic r 0 p gap [] = ([], rev gap).
Proof. intros H. simpl. rewrite H. reflexivity. Qed.

(** A non-empty match at the cursor is reported, and the scan resumes
    where it ends. *)
Lemma scan_hit (p : option ascii) (gap : str) (m : rmatch) (t s : str) :
  t <> [] -> m_text m = t ->
  try_at ic r false p (t ++ s) = Some m ->
  scan ic r 0 p gap (t ++ s) =
  ((rev gap, m) :: fst (scan ic r 0 (last_char t p) [] s),
   snd (scan ic r 0 (last_char t p) [] s)).
Proof.
  intros Ht Hm H. destruct t as [|x t]; [contradiction|].
  simpl app. simpl scan. simpl app in H. rewrite H, Hm.
  replace (length (x :: t) - 1) with (length t) by (simpl; lia).
  rewrite scan_skip.
  destruct (scan ic r 0 (last_char t (Some x)) [] s). reflexivity.
Qed.

(** What a successful attempt says: the pattern leads from the cursor to a
    state whose text is what follows the match. *)
Lemma try_at_sound (adv : bool) (p : option ascii) (s : str) (m : rmatch) :
  try_at ic r adv p s = Some m ->
  exists st', den ic r (MState p s []) st' /\
              s = m_text m ++ rest st' /\ m_caps m = caps st'.
Proof.
  unfold try_at. intros H. apply exec_sound in H as (st' & D & H).
  exists st'. split; [exact D|].
  destruct (den_rest _ _ _ _ D) as (t & E & _). simpl in E.
  destruct (adv && _); [discriminate|]. injection H as <-. simpl.
  rewrite E at 2 3. rewrite E at 1. rewrite firstn_app_length. auto.
Qed.

(** Every reported match comes from an attempt at some position. *)
Lemma scan_In :
  forall s skip p gap g m,
    In (g, m) (fst (scan ic r skip p gap s)) ->
    exists pre s' adv,
      s = pre ++ s' /\ try_at ic r adv (last_char pre p) s' = Some m.
Proof.
  assert (shift : forall x s p m,
            (exists pre s' adv, s = pre ++ s' /\
               try_at ic r adv (last_char pre (Some x)) s' = Some m) ->
            exists pre s' adv, x :: s = pre ++ s' /\
               try_at ic r adv (last_char pre p) s' = Some m).
  { intros x s p m (pre & s' & adv & -> & H). exists (x :: pre), s', adv. auto. }
  induction s as [|x s IH]; intros skip p gap g m H.
  - destruct skip as [|n]; simpl in H; [|contradiction].
    destruct (try_at ic r false p []) as [m0|] eqn:T; [|contradiction].
    destruct (m_text m0).
    + destruct (try_at ic r true p []) as [m1|] eqn:T1; simpl in H.
      * destruct H as [H|[H|[]]]; injection H as <- <-;
          [exists [], [], false|exists [], [], true]; auto.
      * destruct H as [H|[]]. injection H as <- <-. exists [], [], false; auto.
    + simpl in H. destruct H as [H|[]]. injection H as <- <-.
      exists [], [], false; auto.
  - destruct skip as [|n]; simpl in H.
    + destruct (try_at ic r false p (x :: s)) as [m0|] eqn:T.
      * destruct (m_text m0) as [|c t].
        -- destruct (try_at ic r true p (x :: s)) as [m1|] eqn:T1.
           ++ destruct (scan ic r (length (m_text m1) - 1) (Some x) [] s)
                as [ms tl] eqn:Sc.
              simpl in H. destruct H as [H|[H|H]].
              ** injection H as <- <-. exists [], (x :: s), false. auto.
              ** injection H as <- <-. exists [], (x :: s), true. auto.
              ** apply shift.
                 apply (IH (length (m_text m1) - 1) (Some x) [] g).
                 rewrite Sc. exact H.
           ++ destruct (scan ic r 0 (Some x) [x] s) as [ms tl] eqn:Sc.
              simpl in H. destruct H as [H|H].
              ** injection H as <- <-. exists [], (x :: s), false. auto.
              ** apply shift. apply (IH 0 (Some x) [x] g). rewrite Sc. exact H.
        -- destruct (scan ic r (length (c :: t) - 1) (Some x) [] s)
             as [ms tl] eqn:Sc.
           simpl in H. destruct H as [H|H].
           ++ injection H as <- <-. exists [], (x :: s), false. auto.
           ++ apply shift. apply (IH (length (c :: t) - 1) (Some x) [] g).
              rewrite Sc. exact H.
      * apply shift. apply (IH 0 (Some x) (x :: gap) g). exact H.
    + apply shift. apply (IH n (Some x) gap g). exact H.
Qed.

Lemma finditer_In (s : str) (m : rmatch) :
  In m (finditer ic r s) ->
  exists pre s' adv,
    s = pre ++ s' /\ try_at ic r adv (last_char pre None) s' = Some m.
Proof.
  unfold finditer, scan_all. intros H. apply in_map_iff in H as ([g m'] & E & H).
  simpl in E. subst m'. eapply scan_In. exact H.
Qed.

Variable repl : rmatch -> str.

Lemma render_add_gap (g : str) (out : list (str * rmatch) * str) :
  render repl (add_gap g out) = g ++ render repl out.
Proof.
  destruct out as [[|[g0 m] ms] tl]; unfold render; simpl.
  - reflexivity.
  - rewrite <- !app_assoc. reflexivity.
Qed.

Lemma sub_render (s : str) : sub ic r repl s = sub_from ic r repl None s.
Proof.
  unfold sub, sub_from, scan_all, render.
  destruct (scan ic r 0 None [] s). reflexivity.
Qed.

Lemma sub_from_miss (p : option ascii) (x : ascii) (s : str) :
  try_at ic r false p (x :: s) = None ->
  sub_from ic r repl p (x :: s) = x :: sub_from ic r repl (Some x) s.
Proof.
  intros H. unfold sub_from. rewrite scan_miss by exact H. rewrite render_add_gap.
  reflexivity.
Qed.

Lemma sub_from_end (p : option ascii) :
  try_at ic r false p [] = None -> sub_from ic r repl p [] = [].
Proof. intros H. unfold sub_from. rewrite scan_end by exact H. reflexivity. Qed.

Lemma sub_from_hit (p : option ascii) (m : rmatch) (t s : str) :
  t <> [] -> m_text m = t ->
  try_at ic r false p (t ++ s) = Some m ->
  sub_from ic r repl p (t ++ s) =
  repl m ++ sub_from ic r repl (last_char t p) s.
Proof.
  intros Ht Hm H. unfold sub_from. rewrite (@scan_hit p [] m t s Ht Hm H).
  unfold render. simpl. rewrite <- app_assoc. reflexivity.
Qed.

End Scan.

End ScanFacts.

Module SnakeFacts.

Import Re Sem ReFacts ScanFacts Buster Spec.

Lemma upper_not_lower_or_digit (y : ascii) :
  Py.is_upper y = true -> lower_or_digit y = false.
Proof.
  unfold lower_or_digit, Py.is_upper, Py.is_lower, Py.is_digit, Py.between.
  intros H. apply andb_prop in H as [H1 H2].
  apply N.leb_le in H1, H2.
  destruct (N.leb_spec 97 (Py.code y)), (N.leb_spec 48 (Py.code y)),
    (N.leb_spec (Py.code y) 122), (N.leb_spec (Py.code y) 57);
    simpl; auto; lia.
Qed.

Lemma try_camel_none (p : option ascii) (s : str) :
  match s with
  | x :: y :: _ => lower_or_digit x && Py.is_upper y = false
  | _ => True
  end ->
  try_at false camel_pattern false p s = None.
Proof.
  intros H. destruct (try_at false camel_pattern false p s) as [m|] eqn:T; auto.
  apply try_at_sound in T as (st' & D & _). exfalso.
  unfold camel_pattern in D. cbn [den] in D.
  destruct D as (st1 & (st0 & (x & s1 & E1 & C1 & ->) & ->) &
                 (st2 & (y & s2 & E2 & C2 & ->) & _)).
  simpl in *. subst. rewrite cls_ok_exact in C1, C2. rewrite C1, C2 in H.
  discriminate.
Qed.

Lemma try_camel_some (p : option ascii) (x y : ascii) (s : str) :
  lower_or_digit x = true -> Py.is_upper y = true ->
  try_at false camel_pattern false p ([x; y] ++ s)
  = Some (RMatch [x; y] [(2, [y]); (1, [x])]).
Proof.
  intros Hx Hy. unfold try_at, camel_pattern. cbn [exec rest prev caps app].
  rewrite !cls_ok_exact, Hx, Hy. cbn [rest prev caps].
  rewrite !taken_cons.
  change (x :: y :: s) with ([x; y] ++ s). rewrite firstn_app_length.
  reflexivity.
Qed.

Lemma sub_camel :
  forall n s p, length s <= n ->
    sub_from false camel_pattern camel_repl p s = insert_underscores s.
Proof.
  induction n as [|n IH]; intros s p Hn.
  - destruct s; [|simpl in Hn; lia].
    apply sub_from_end. apply try_camel_none. exact I.
  - destruct s as [|x [|y s]].
    + apply sub_from_end. apply try_camel_none. exact I.
    + rewrite sub_from_miss by (apply try_camel_none; exact I).
      rewrite sub_from_end by (apply try_camel_none; exact I). reflexivity.
    + cbn [insert_underscores].
      destruct (lower_or_digit x && Py.is_upper y) eqn:Hxy.
      * apply andb_prop in Hxy as [Hx Hy].
        change (x :: y :: s) with ([x; y] ++ s).
        rewrite (@sub_from_hit false camel_pattern camel_repl p
                   (RMatch [x; y] [(2, [y]); (1, [x])]) [x; y] s);
          [|discriminate|reflexivity|apply try_camel_some; assumption].
        rewrite IH by (simpl in *; lia).
        change (insert_underscores (y :: s))
          with (match s with
                | z :: _ =>
                    if lower_or_digit y && Py.is_upper z
                    then y :: Py.underscore :: insert_underscores s
                    else y :: insert_underscores s
                | [] => [y]
                end).
        rewrite (upper_not_lower_or_digit _ Hy). simpl.
        destruct s; reflexivity.
      * rewrite sub_from_miss by (apply try_camel_none; exact Hxy).
        rewrite IH by (simpl in *; lia). reflexivity.
Qed.

Lemma try_run_none (p : option ascii) (s : str) :
  stops space_or_hyphen s -> try_at false run_pattern false p s = None.
Proof.
  intros H. destruct (try_at false run_pattern false p s) as [m|] eqn:T; auto.
  apply try_at_sound in T as (st' & D & _). exfalso.
  apply den_plus in D as (t & s' & Ht & E & F & _). simpl in E. subst.
  destruct t as [|x t]; [contradiction|]. simpl in *.
  rewrite H in F. discriminate.
Qed.

Lemma try_run_some (p : option ascii) (t tl : str) :
  t <> [] -> forallb space_or_hyphen t = true -> stops space_or_hyphen tl ->
  try_at false run_pattern false p (t ++ tl) = Some (RMatch t []).
Proof.
  intros Ht F S. destruct t as [|x t]; [contradiction|]. simpl in F.
  apply andb_prop in F as [Fx F].
  unfold try_at, run_pattern, Plus. cbn [exec rest prev caps app].
  rewrite cls_ok_exact, Fx.
  apply star_greedy_longest.
  - rewrite forallb_cls_ok_exact. exact F.
  - destruct tl; simpl in *; auto. rewrite cls_ok_exact. exact S.
  - cbn [rest]. change (x :: t ++ tl) with ((x :: t) ++ tl).
    rewrite firstn_app_length. reflexivity.
Qed.

Lemma collapse_in_run :
  forall t tl, forallb space_or_hyphen t = true -> stops space_or_hyphen tl ->
    collapse_runs true (t ++ tl) = collapse_runs false tl.
Proof.
  induction t as [|x t IH]; intros tl F S.
  - destruct tl as [|y tl]; simpl in *; auto. rewrite S. reflexivity.
  - simpl in F. apply andb_prop in F as [Fx F]. simpl. rewrite Fx.
    apply IH; assumption.
Qed.

Lemma sub_runs :
  forall n s p, length s <= n ->
    sub_from false run_pattern (const ("_" : str)) p s = collapse_runs false s.
Proof.
  induction n as [|n IH]; intros s p Hn.
  - destruct s; [|simpl in Hn; lia].
    apply sub_from_end. apply try_run_none. exact I.
  - destruct s as [|x s].
    + apply sub_from_end. apply try_run_none. exact I.
    + destruct (space_or_hyphen x) eqn:Hx.
      * destruct (span_spec space_or_hyphen s) as (E & F & S).
        set (t := fst (span space_or_hyphen s)) in *.
        set (tl := snd (span space_or_hyphen s)) in *.
        rewrite E. change (x :: t ++ tl) with ((x :: t) ++ tl).
        rewrite (@sub_from_hit false run_pattern (const ("_" : str)) p
                   (RMatch (x :: t) []) (x :: t) tl);
          [|discriminate|reflexivity
           |apply try_run_some; [discriminate|simpl; rewrite Hx; exact F
                                |exact S]].
        rewrite IH.
        -- simpl. rewrite Hx. rewrite collapse_in_run by assumption.
           reflexivity.
        -- simpl in Hn. rewrite E in Hn. rewrite length_app in Hn. lia.
      * rewrite sub_from_miss by (apply try_run_none; exact Hx).
        rewrite IH by (simpl in *; lia). simpl. rewrite Hx. reflexivity.
Qed.

(** The two substitutions and the lowercasing of [to_snake_case] do what
    the specification says of the case-style fallback. *)
Lemma to_snake_case_fallback (s : str) :
  to_snake_case s = case_style_fallback s.
Proof.
  unfold to_snake_case, case_style_fallback.
  rewrite !sub_render.
  rewrite (@sub_camel (length s)) by auto.
  rewrite (@sub_runs (length (insert_underscores s))) by auto.
  reflexivity.
Qed.

End SnakeFacts.

Module IllogicalFacts.

Import Re Sem ReFacts ScanFacts Buster Spec.

Lemma exec_seq (A : Type) (ic : bool) (r1 r2 : regex) (st : mstate)
    (k : mstate -> option A) :
  exec ic (Seq r1 r2) st k = exec ic r1 st (fun st1 => exec ic r2 st1 k).
Proof. reflexivity. Qed.

Lemma exec_grp (A : Type) (ic : bool) (n : nat) (r : regex) (st : mstate)
    (k : mstate -> option A) :
  exec ic (Grp n r) st k
  = exec ic r st
      (fun st1 =>
         k (MState (prev st1) (rest st1) ((n, taken st st1) :: caps st1))).
Proof. reflexivity. Qed.

Lemma exec_star_longest (A : Type) (ok : ascii -> bool) (t s' : str)
    (p : option ascii) (cs : list (nat * str)) (k : mstate -> option A)
    (a : A) :
  forallb ok t = true -> stops ok s' ->
  k (MState (last_char t p) s' cs) = Some a ->
  exec false (Star true ok) (MState p (t ++ s') cs) k = Some a.
Proof.
  intros F S K. cbn [exec prev rest caps]. apply star_greedy_longest.
  - rewrite forallb_cls_ok_exact. exact F.
  - destruct s'; simpl in *; auto. rewrite cls_ok_exact. exact S.
  - exact K.
Qed.

Lemma exec_plus_longest (A : Type) (ok : ascii -> bool) (t s' : str)
    (p : option ascii) (cs : list (nat * str)) (k : mstate -> option A)
    (a : A) :
  t <> [] -> forallb ok t = true -> stops ok s' ->
  k (MState (last_char t p) s' cs) = Some a ->
  exec false (Plus true ok) (MState p (t ++ s') cs) k = Some a.
Proof.
  intros Ht F S K. destruct t as [|x t]; [contradiction|]. simpl in F.
  apply andb_prop in F as [Fx F]. unfold Plus.
  cbn [exec prev rest caps app]. rewrite cls_ok_exact, Fx.
  apply (@exec_star_longest A ok t s' (Some x) cs k a F S K).
Qed.

Lemma exec_plus_all (A : Type) (ok : ascii -> bool) (t : str)
    (p : option ascii) (cs : list (nat * str)) (k : mstate -> option A)
    (a : A) :
  t <> [] -> forallb ok t = true ->
  k (MState (last_char t p) [] cs) = Some a ->
  exec false (Plus true ok) (MState p t cs) k = Some a.
Proof.
  intros Ht F K. rewrite <- (app_nil_r t) at 1.
  apply exec_plus_longest; auto. exact I.
Qed.

Lemma taken_all (p p' : option ascii) (t : str) (cs cs' : list (nat * str)) :
  taken (MState p t cs) (MState p' [] cs') = t.
Proof. apply taken_app. simpl. symmetry. apply app_nil_r. Qed.

Lemma exec_opt_skip (A : Type) (ok : ascii -> bool) (x : ascii) (s : str)
    (p : option ascii) (cs : list (nat * str)) (k : mstate -> option A) :
  ok x = false ->
  exec false (Opt ok) (MState p (x :: s) cs) k = k (MState p (x :: s) cs).
Proof.
  intros H. unfold Opt. cbn [exec rest]. rewrite cls_ok_exact, H. reflexivity.
Qed.

(** The alternation of the four operators reads the operator that stands
    at the cursor. *)
Lemma exec_ops (A : Type) (op s : str) (p : option ascii)
    (cs : list (nat * str)) (k : mstate -> option A) :
  In op comparison_ops ->
  exec false (alts [lit "=="; lit "!="; lit ">"; lit "<"])
    (MState p (op ++ s) cs) k
  = k (MState (last_char op p) s cs).
Proof.
  intros [<-|[<-|[<-|[<-|[]]]]]; simpl;
    destruct (k _); reflexivity.
Qed.

Lemma digit_facts (d : ascii) :
  Py.is_digit d = true ->
  Py.is_space d = false /\ quote_char d = false /\ Py.is_word d = true.
Proof.
  intros H. unfold Py.is_word. rewrite H.
  rewrite orb_true_r. simpl. split; [|split; auto].
  - unfold Py.is_digit, Py.is_space, Py.between in *.
    apply andb_prop in H as [H1 H2]. apply N.leb_le in H1, H2.
    destruct (N.leb_spec 9 (Py.code d)), (N.leb_spec (Py.code d) 13),
      (N.leb_spec 28 (Py.code d)), (N.leb_spec (Py.code d) 32);
      simpl; auto; lia.
  - unfold quote_char.
    destruct (Ascii.eqb_spec d Py.squote) as [->|_]; [discriminate|].
    destruct (Ascii.eqb_spec d Py.dquote) as [->|_]; [discriminate|].
    reflexivity.
Qed.

Lemma forallb_digit_word_or_space (t : str) :
  forallb Py.is_digit t = true -> forallb word_or_space t = true.
Proof.
  induction t as [|d t IH]; simpl; auto. intros H.
  apply andb_prop in H as [Hd H]. unfold word_or_space at 1.
  destruct (digit_facts _ Hd) as (_ & _ & ->). simpl. auto.
Qed.

Lemma in_lstrip (c : ascii) :
  forall s, In c s -> Py.is_space c = false -> In c (Py.lstrip s).
Proof.
  induction s as [|x s IH]; simpl; auto. intros [->|H] Hc.
  - rewrite Hc. left. reflexivity.
  - destruct (Py.is_space x); [auto|right; exact H].
Qed.

Lemma in_strip (c : ascii) (s : str) :
  In c s -> Py.is_space c = false -> In c (Py.strip s).
Proof.
  intros H Hc. unfold Py.strip, Py.rstrip. rewrite <- in_rev.
  apply in_lstrip; auto. rewrite <- in_rev. apply in_lstrip; auto.
Qed.

Lemma isdigit_false (c : ascii) (s : str) :
  In c s -> Py.is_digit c = false -> Py.isdigit s = false.
Proof.
  intros H Hc. unfold Py.isdigit. destruct s as [|x s]; auto.
  destruct (forallb Py.is_digit (x :: s)) eqn:F; auto.
  rewrite forallb_forall in F. rewrite (F _ H) in Hc. discriminate.
Qed.

(** The match at the start of a line of the shape
    <var> <op> <digits> THEN|DO <action>. *)
Lemma try_at_guarded (var op digits kw0 action : str) :
  var <> [] -> forallb Py.is_word var = true ->
  In op comparison_ops ->
  digits <> [] -> forallb Py.is_digit digits = true ->
  then_or_do kw0 ->
  forallb word_or_space action = true ->
  try_at false illogical_pattern false None
    (guarded_line var op digits kw0 action)
  = Some (RMatch (guarded_line var op digits kw0 action)
            [(4, guarded_value digits kw0 action); (3, []); (2, op);
             (1, var)]).
Proof.
  intros Hvar Fvar Hop Hdig Fdig Hkw Fact.
  destruct digits as [|d digits]; [contradiction|]. simpl in Fdig.
  apply andb_prop in Fdig as [Fd Fdig].
  destruct (digit_facts _ Fd) as (Dsp & Dq & Dw).
  unfold try_at, illogical_pattern, guarded_line, guarded_value.
  cbn [seqs].
  rewrite exec_seq, exec_grp.
  apply exec_plus_longest; [exact Hvar|exact Fvar|reflexivity|].
  cbn [prev rest caps]. rewrite (taken_app _ _ var) by reflexivity.
  rewrite exec_seq.
  apply (@exec_star_longest _ Py.is_space (" " : str)); [reflexivity| |].
  { destruct Hop as [<-|[<-|[<-|[<-|[]]]]]; reflexivity. }
  cbv beta. rewrite exec_seq, exec_grp, exec_ops by exact Hop.
  cbn [prev rest caps]. rewrite (taken_app _ _ op) by reflexivity.
  rewrite exec_seq.
  apply (@exec_star_longest _ Py.is_space (" " : str)); [reflexivity| |].
  { exact Dsp. }
  cbv beta. rewrite exec_seq, exec_grp.
  change ((d :: digits) ++ (" " : str) ++ kw0 ++ (" " : str) ++ action)
    with (d :: (digits ++ (" " : str) ++ kw0 ++ (" " : str) ++ action)).
  rewrite exec_opt_skip by exact Dq.
  cbn [prev rest caps]. rewrite (taken_app _ _ []) by reflexivity.
  rewrite exec_seq, exec_grp.
  assert (Fval : forallb word_or_space
                   (d :: digits ++ (" " : str) ++ kw0 ++ (" " : str) ++ action)
                 = true).
  { cbn [forallb]. unfold word_or_space at 1. rewrite Dw. cbn [orb andb].
    rewrite !forallb_app, Fact, (forallb_digit_word_or_space _ Fdig).
    destruct Hkw as [-> | ->]; reflexivity. }
  apply exec_plus_all; [discriminate|exact Fval|].
  cbn [exec prev rest caps group Nat.eqb eat andb length].
  rewrite taken_all, Nat.sub_0_r, firstn_all. reflexivity.
Qed.

(** The value examined in such a line is not a number for [isdigit]. *)
Lemma guarded_value_not_digits (digits kw0 action : str) :
  then_or_do kw0 ->
  Py.isdigit (Py.strip (guarded_value digits kw0 action)) = false.
Proof.
  intros Hkw. unfold guarded_value.
  destruct Hkw as [-> | ->].
  - apply isdigit_false with (c := "T"%char); [|reflexivity].
    apply in_strip; [|reflexivity].
    rewrite !in_app_iff. right. right. left. simpl. auto.
  - apply isdigit_false with (c := "D"%char); [|reflexivity].
    apply in_strip; [|reflexivity].
    rewrite !in_app_iff. right. right. left. simpl. auto.
Qed.

(** The scan of a whole-line match reports it alone. *)
Lemma finditer_whole (r : regex) (line : str) (m : rmatch) :
  line <> [] -> m_text m = line ->
  try_at false r false None line = Some m ->
  (forall p, try_at false r false p [] = None) ->
  finditer false r line = [m].
Proof.
  intros Hl Hm T E. unfold finditer, scan_all.
  rewrite <- (app_nil_r line) at 1. rewrite <- (app_nil_r line) in T at 1.
  rewrite (@scan_hit false r None [] m line [] Hl Hm T).
  rewrite scan_end by apply E. reflexivity.
Qed.

Lemma try_at_illogical_end (p : option ascii) :
  try_at false illogical_pattern false p [] = None.
Proof.
  destruct (try_at false illogical_pattern false p []) as [m|] eqn:T.
  2: reflexivity.
  apply try_at_sound in T as (st' & D & _). exfalso.
  unfold illogical_pattern in D. cbn [seqs den] in D.
  destruct D as (st1 & (st0 & D & _) & _).
  apply den_plus in D as (t & s' & Ht & E & _). simpl in E.
  destruct t; [contradiction|discriminate].
Qed.

Lemma finditer_guarded (var op digits kw0 action : str) :
  var <> [] -> forallb Py.is_word var = true ->
  In op comparison_ops ->
  digits <> [] -> forallb Py.is_digit digits = true ->
  then_or_do kw0 ->
  forallb word_or_space action = true ->
  finditer false illogical_pattern (guarded_line var op digits kw0 action)
  = [RMatch (guarded_line var op digits kw0 action)
       [(4, guarded_value digits kw0 action); (3, []); (2, op); (1, var)]].
Proof.
  intros Hvar Fvar Hop Hdig Fdig Hkw Fact.
  apply finditer_whole.
  - unfold guarded_line. destruct var; [contradiction|discriminate].
  - reflexivity.
  - apply try_at_guarded; assumption.
  - apply try_at_illogical_end.
Qed.

(** Where the pattern can stop before its value: after a token, an
    operator, and an optional quote character, which is then group 3. *)
Lemma den_illogical_prefix (p : option ascii) (s : str) (st5 : mstate) :
  den false
    (seqs [ Grp 1 (Plus true Py.is_word); Star true Py.is_space;
            Grp 2 (alts [lit "=="; lit "!="; lit ">"; lit "<"]);
            Star true Py.is_space; Grp 3 (Opt quote_char) ])
    (MState p s []) st5 ->
  exists tok ws1 op ws2 quo,
    s = tok ++ ws1 ++ op ++ ws2 ++ quo ++ rest st5 /\
    tok <> [] /\ In op comparison_ops /\
    forallb Py.is_space ws2 = true /\
    caps st5 = [(3, quo); (2, op); (1, tok)] /\
    forallb Py.is_word tok = true /\
    forallb Py.is_space ws1 = true /\
    (quo = [] \/ exists c, quote_char c = true /\ quo = [c]).
Proof.
  cbn [seqs den].
  intros (st1 & (st0 & D1 & ->) & st2 & D2 & st3 & (st2' & D3 & ->) &
          st4 & D4 & st4' & D5 & ->).
  apply den_plus in D1 as (tok & s1 & Htok & E1 & Ftok & ->). simpl in E1.
  subst s. rewrite (taken_app _ _ tok) in D2 by reflexivity.
  destruct D2 as (ws1 & s2 & E2 & F1 & ->). simpl in E2. subst s1.
  rewrite forallb_cls_ok_exact in F1.
  cbn [prev rest caps] in D3.
  assert (K : exists op s3,
             In op comparison_ops /\ s2 = op ++ s3 /\
             st2' = MState (last_char op (last_char ws1 (last_char tok p)))
                      s3 [(1, tok)]).
  { cbn [alts den] in D3. unfold comparison_ops.
    destruct D3 as [D|[D|[D|D]]]; apply den_lit in D as (s3 & E & ->);
      simpl in E; subst s2; eexists; exists s3; simpl; eauto 7. }
  clear D3. destruct K as (op & s3 & Hop & -> & ->).
  rewrite (taken_app _ _ op) in D4 by reflexivity.
  destruct D4 as (ws2 & s4 & E4 & F4 & ->). simpl in E4. subst s3.
  rewrite forallb_cls_ok_exact in F4.
  cbn [prev rest caps] in D5. unfold Opt in D5. cbn [den] in D5.
  destruct D5 as [(x & s5 & E5 & Hq & ->)| ->]; cbn [prev rest caps] in *.
  - subst s4. rewrite taken_cons. rewrite cls_ok_exact in Hq.
    exists tok, ws1, op, ws2, [x]. repeat split; auto.
    right. exists x. auto.
  - rewrite (taken_app _ _ []) by reflexivity.
    exists tok, ws1, op, ws2, []. repeat split; auto.
Qed.

Lemma exec_seqs_prefix (A : Type) (r1 r2 r3 r4 r5 r6 r7 : regex)
    (st : mstate) (k : mstate -> option A) :
  exec false (seqs [r1; r2; r3; r4; r5; r6; r7]) st k
  = exec false (seqs [r1; r2; r3; r4; r5]) st
      (fun st5 => exec false (Seq r6 r7) st5 k).
Proof. reflexivity. Qed.

(** An unquoted value is a run of word and whitespace characters that
    cannot be extended. *)
Lemma try_at_illogical_unquoted (adv : bool) (p : option ascii) (s : str)
    (m : rmatch) :
  try_at false illogical_pattern adv p s = Some m ->
  m_group m 3 = [] ->
  exists tok ws1 op ws2 tail,
    s = m_text m ++ tail /\
    m_text m = tok ++ ws1 ++ op ++ ws2 ++ m_group m 4 /\
    In op comparison_ops /\
    forallb Py.is_space ws2 = true /\
    m_group m 4 <> [] /\
    forallb word_or_space (m_group m 4) = true /\
    stops word_or_space tail.
Proof.
  intros T G. unfold try_at, illogical_pattern in T.
  rewrite exec_seqs_prefix in T.
  apply exec_sound in T as ([p5 s5 cs5] & D5 & T).
  apply den_illogical_prefix in D5
    as (tok & ws1 & op & ws2 & quo & E & Htok & Hop & F2 & Ecs & _).
  cbn [rest caps] in E, Ecs. subst cs5.
  destruct quo as [|c quo].
  - (* no quote: the value is read greedily, and the rest always matches *)
    cbn [exec Plus prev rest caps group Nat.eqb eat] in T.
    destruct s5 as [|x s']; [discriminate|].
    destruct (cls_ok false word_or_space x) eqn:Hx; [|discriminate].
    destruct (span_spec (cls_ok false word_or_space) s') as (E' & F' & S').
    set (t := fst (span (cls_ok false word_or_space) s')) in *.
    set (tl := snd (span (cls_ok false word_or_space) s')) in *.
    clearbody t tl. subst s'.
    assert (Es : s = (tok ++ ws1 ++ op ++ ws2 ++ x :: t) ++ tl).
    { rewrite E. simpl. rewrite <- !app_assoc. reflexivity. }
    clear E. set (pre := tok ++ ws1 ++ op ++ ws2 ++ x :: t) in *.
    assert (Hpre : (length pre =? 0) = false).
    { unfold pre. destruct tok; [contradiction|reflexivity]. }
    subst s.
    erewrite star_greedy_longest in T; [|exact F'|exact S'|].
    2:{ cbn [rest prev caps group Nat.eqb eat].
        rewrite firstn_app_length, length_app, Nat.add_sub, Hpre, andb_false_r.
        reflexivity. }
    injection T as <-. unfold m_group. cbn [m_text m_caps group Nat.eqb].
    change (x :: t ++ tl) with ((x :: t) ++ tl).
    rewrite (taken_app _ _ (x :: t)) by reflexivity.
    exists tok, ws1, op, ws2, tl. repeat split; auto.
    + discriminate.
    + rewrite cls_ok_exact in Hx. rewrite forallb_cls_ok_exact in F'.
      simpl. rewrite Hx, F'. reflexivity.
    + destruct tl; simpl in *; auto. rewrite cls_ok_exact in S'. exact S'.
  - (* a quote was read: it is group 3 of the match *)
    exfalso. apply exec_sound in T as (st' & D & T).
    change (den false (Seq ?a ?b) ?x ?y)
      with (exists z, den false a x z /\ den false b z y) in D.
    destruct D as (st6 & (st6' & D6 & ->) & (u & p7 & s7 & _ & _ & ->)).
    apply den_plus in D6 as (v & s6 & _ & _ & _ & ->).
    cbn [caps] in T. destruct (adv && _); [discriminate|].
    injection T as <-. unfold m_group in G. cbn [m_caps group Nat.eqb] in G.
    discriminate.
Qed.

(** Every unquoted value that the detector examines is such a run. *)
Lemma finditer_unquoted_maximal (line : str) (m : rmatch) :
  In m (finditer false illogical_pattern line) ->
  m_group m 3 = [] ->
  value_is_maximal_run line m.
Proof.
  intros H G. apply finditer_In in H as (pre & s' & adv & -> & T).
  destruct (try_at_illogical_unquoted _ _ _ T G)
    as (tok & ws1 & op & ws2 & tail & E & R).
  exists pre, tok, ws1, op, ws2, tail. split; [|exact R].
  rewrite E at 1. reflexivity.
Qed.

(** Every match of the pattern is a comparison. *)
Lemma try_at_illogical_shape (adv : bool) (p : option ascii) (s : str)
    (m : rmatch) :
  try_at false illogical_pattern adv p s = Some m -> comparison_shape m.
Proof.
  intros T. unfold try_at, illogical_pattern in T.
  rewrite exec_seqs_prefix in T.
  apply exec_sound in T as ([p5 s5 cs5] & D5 & T).
  apply den_illogical_prefix in D5
    as (tok & ws1 & op & ws2 & quo & E & Htok & Hop & F2 & Ecs & Ftok & F1
        & Hquo).
  cbn [rest caps] in E, Ecs. subst cs5.
  apply exec_sound in T as (st' & D & T).
  change (den false (Seq ?a ?b) ?x ?y)
    with (exists z, den false a x z /\ den false b z y) in D.
  destruct D as (st6 & (st6' & D6 & ->) & (u & p7 & s7 & G3 & Eat & ->)).
  apply den_plus in D6 as (v & s6 & Hv & E6 & Fv & ->).
  cbn [prev rest caps] in *. subst s5.
  rewrite (taken_app _ _ v) in * by reflexivity.
  cbn [group Nat.eqb] in G3. injection G3 as <-.
  apply eat_split in Eat as (w & -> & _ & _ & W). rewrite (W eq_refl) in *.
  clear W w.
  assert (Es : s = (tok ++ ws1 ++ op ++ ws2 ++ quo ++ v ++ quo) ++ s7).
  { rewrite E. rewrite <- !app_assoc. reflexivity. }
  clear E. subst s. rewrite firstn_app_length in T.
  destruct (adv && _); [discriminate|]. injection T as <-.
  exists tok, ws1, op, ws2. unfold m_group.
  cbn [m_text m_caps group Nat.eqb]. repeat split; auto.
Qed.

Lemma finditer_illogical_shape (line : str) (m : rmatch) :
  In m (finditer false illogical_pattern line) -> comparison_shape m.
Proof.
  intros H. apply finditer_In in H as (pre & s' & adv & _ & T).
  exact (try_at_illogical_shape _ _ _ T).
Qed.

End IllogicalFacts.

(* ================================================================== *)
(** * The claims of the specification *)
(* ================================================================== *)

Module BasicFacts.

Import Re Sem Buster Spec.

Lemma eqb_eq (s t : str) : Py.eqb s t = true <-> s = t.
Proof.
  revert t. induction s as [|a s IH]; intros [|b t]; simpl;
    try (split; [discriminate|discriminate]); try tauto.
  rewrite andb_true_iff, Ascii.eqb_eq, IH. split.
  - intros [-> ->]. reflexivity.
  - intros E. injection E as -> ->. auto.
Qed.

Lemma mem_In (x : str) (xs : list str) : Py.mem x xs = true <-> In x xs.
Proof.
  unfold Py.mem. rewrite existsb_exists. split.
  - intros (y & H & E). apply eqb_eq in E. subst. exact H.
  - intros H. exists x. split; [exact H|]. apply eqb_eq. reflexivity.
Qed.

Lemma mem_false (x : str) (xs : list str) : Py.mem x xs = false <-> ~ In x xs.
Proof.
  rewrite <- mem_In. destruct (Py.mem x xs); split; auto; try discriminate.
  intros H. exfalso. apply H. reflexivity.
Qed.

Lemma mem_incl (x : str) (xs ys : list str) :
  forallb (fun y => Py.mem y ys) xs = true ->
  Py.mem x xs = true -> Py.mem x ys = true.
Proof.
  rewrite forallb_forall. intros H Hx. apply mem_In in Hx. auto.
Qed.

Lemma find_none_intro (A : Type) (f : A -> bool) (l : list A) :
  (forall x, In x l -> f x = false) -> find f l = None.
Proof.
  induction l as [|a l IH]; intros H; simpl; auto.
  rewrite (H a) by (left; reflexivity). apply IH. intros x Hx.
  apply H. right. exact Hx.
Qed.

(** The two reverse maps hold the same names: the lowercased aliases, which
    include the lowercased canonical names. *)
Lemma typo_test_known (t : str) :
  negb (Py.mem (Py.lower t) ALL_VAR_NAMES)
  && negb (Py.mem (Py.lower t) (map fst VAR_CANONICAL))
  = negb (known t).
Proof.
  unfold known.
  assert (E1 : ALL_VAR_NAMES = map Py.lower aliases) by reflexivity.
  assert (E2 : map fst VAR_CANONICAL = map Py.lower aliases) by reflexivity.
  rewrite E1, E2.
  destruct (Py.mem (Py.lower t) (map Py.lower aliases)) eqn:A.
  - rewrite orb_true_r. reflexivity.
  - destruct (Py.mem (Py.lower t) (map Py.lower canonical_names)) eqn:C;
      [|reflexivity].
    rewrite (@mem_incl _ (map Py.lower canonical_names)
               (map Py.lower aliases)) in A; [discriminate| |exact C].
    vm_compute. reflexivity.
Qed.

(** Neither [isupper] nor [islower]: letters of both cases, or no letter. *)
Lemma mixed_or_caseless (t : str) :
  Py.isupper t = false /\ Py.islower t = false <->
  (has_upper t = true /\ has_lower t = true)
  \/ (has_upper t = false /\ has_lower t = false).
Proof.
  unfold Py.isupper, Py.islower, has_upper, has_lower.
  destruct (existsb Py.is_upper t), (existsb Py.is_lower t); simpl;
    intuition discriminate.
Qed.

End BasicFacts.

Import Re Sem Buster Spec.

(** ** Examples 1 and 2 *)

(** C1.  On Example 1 the program does not report a redundant condition.
    The keyword pass rewrites IS to == and the line splits at AND into two
    conditions, but only the action clause is removed from a condition
    before the comparison: the first one keeps its leading IF, so the two
    cleaned conditions differ, no detector fires, and the output is the
    normalized line. *)
Theorem example1_reports_no_redundancy :
  normalize example1 = example1_normalized /\
  conditions example1_normalized
  = [("IF user_type == " : str) ++ quoted "admin";
     ("user_type == " : str) ++ quoted "admin"
     ++ (" THEN grant_access" : str)] /\
  map clean_condition (conditions example1_normalized)
  = [("IF user_type == " : str) ++ quoted "admin";
     ("user_type == " : str) ++ quoted "admin"] /\
  detect_redundancy example1_normalized = [] /\
  process_line example1 = [example1_normalized].
Proof. vm_compute. repeat split; reflexivity. Qed.

(** C2.  On Example 2 the alias is canonicalized, but the output is not the
    normalized line: the illogical-comparison detector takes the text
    [100 THEN allow] for the compared value and flags it. *)
Theorem example2_flagged_as_illogical :
  normalize example2 = ("IF user_id > 100 THEN allow" : str) /\
  detect_illogical (normalize example2)
  = [("Comparing unquoted value 100 THEN allow as string" : str)] /\
  process_line example2
  = [("FLAG: Illogical comparison: Comparing unquoted value 100 THEN allow as string in line: IF ID_of_user > 100 THEN allow" : str)].
Proof. vm_compute. repeat split; reflexivity. Qed.

(** ** Idempotence and alias equivalence *)

(** C3.  Normalizing twice is not normalizing once.  In [twice_line] the
    operand pattern captures [AND userName] as the second operand; the
    first normalization renames [userName] everywhere and then finds no
    [AND userName] to rename, the second one finds [AND user_name] and
    rewrites it, connective included (as a single normalization does when
    the first operand needs no renaming). *)
Theorem normalize_twice_differs :
  findall2 false var_pattern twice_line
  = [("userName" : str, "==" : str); ("AND userName" : str, "==" : str)] /\
  normalize twice_line = ("user_name==1 AND user_name==2" : str) /\
  normalize (normalize twice_line) = ("user_name==1 and_user_name==2" : str) /\
  normalize (normalize twice_line) <> normalize twice_line /\
  normalize ("x==1 AND userName==2" : str)
  = ("x==1 and_user_name==2" : str).
Proof. vm_compute. repeat split; try reflexivity. discriminate. Qed.

(** C4.  A registered alias in place of its canonical name can change the
    output.  With no space before the operator the operand pattern captures
    the keyword with the name, the pair is renamed as one identifier, and
    the sweep over the aliases, which alone would make the two lines equal,
    no longer finds the alias as a word.  With a space before the operator
    the two lines give the same output. *)
Theorem alias_line_differs :
  In ("user_type" : str, ["UserType" : str; "user_type" : str;
                          "type_of_user" : str; "User_Type" : str;
                          "uset_type" : str]) VAR_SYNONYMS /\
  process_line canonical_line = [("if_user_type==1" : str)] /\
  process_line alias_line = [("if_type_of_user==1" : str)] /\
  fold_left sweep_entry VAR_SYNONYMS alias_line
  = fold_left sweep_entry VAR_SYNONYMS canonical_line /\
  process_line ("IF type_of_user == 1" : str)
  = process_line ("IF user_type == 1" : str).
Proof. vm_compute. repeat split; try reflexivity. left. reflexivity. Qed.

(** ** The priority rule *)

(** C5.  A non-blank line gives exactly one line of output, in [main] as in
    [process_line]: the Finding of the first detector, in the order
    redundancy, contradiction, typo, illogical comparison, that returns
    something, and the normalized line if none does.  A redundancy hides
    whatever the later detectors found: [redundant_typo_line] has a
    repeated condition and a token that the typo detector keeps, and only
    the redundancy is reported. *)
Theorem process_line_first_finding (line : str) :
  Py.strip line <> [] ->
  exists out,
    process_line line = [out] /\
    run [line] = [out] /\
    out = match first_finding detectors (normalize (Py.strip line))
                  (Py.strip line) with
          | Some finding => finding
          | None => normalize (Py.strip line)
          end /\
    (forall r0 rs,
        detect_redundancy (normalize (Py.strip line)) = r0 :: rs ->
        out = ("FLAG: Redundant condition '" : str) ++ r0
              ++ ("' in line: " : str) ++ Py.strip line) /\
    detect_redundancy (normalize redundant_typo_line)
    = [("fooBar == 2" : str)] /\
    detect_typos (normalize redundant_typo_line)
    = [("fooBar" : str); ("fooBar" : str)] /\
    process_line redundant_typo_line
    = [("FLAG: Redundant condition 'fooBar == 2' in line: IF x == 1 AND fooBar == 2 AND fooBar == 2 THEN y" : str)].
Proof.
  intros Hline.
  assert (E1 : detect_redundancy (normalize redundant_typo_line)
               = [("fooBar == 2" : str)]) by (vm_compute; reflexivity).
  assert (E2 : detect_typos (normalize redundant_typo_line)
               = [("fooBar" : str); ("fooBar" : str)])
    by (vm_compute; reflexivity).
  assert (E3 : process_line redundant_typo_line
               = [("FLAG: Redundant condition 'fooBar == 2' in line: IF x == 1 AND fooBar == 2 AND fooBar == 2 THEN y" : str)])
    by (vm_compute; reflexivity).
  assert (R : run [line] = process_line line).
  { unfold run. cbn [flat_map].
    destruct (Py.strip line); [contradiction|].
    cbn [nonempty]. apply app_nil_r. }
  rewrite R, E1, E2, E3. clear R E1 E2 E3. unfold process_line.
  cbn [first_finding detectors].
  unfold redundancy_finding, contradiction_finding, typo_finding,
    illogical_finding.
  set (orig := Py.strip line). set (n := normalize orig).
  destruct (detect_redundancy n) as [|r0 rs] eqn:Hr.
  - destruct (detect_contradiction n).
    + eexists. split; [reflexivity|]. split; [reflexivity|].
      split; [reflexivity|]. split; [discriminate|]. auto.
    + destruct (detect_typos n) as [|t ts].
      * destruct (detect_illogical n) as [|i is'];
          (eexists; split; [reflexivity|]; split; [reflexivity|];
           split; [reflexivity|]; split; [discriminate|]; auto).
      * eexists. split; [reflexivity|]. split; [reflexivity|].
        split; [reflexivity|]. split; [discriminate|]. auto.
  - eexists. split; [reflexivity|]. split; [reflexivity|].
    split; [reflexivity|]. split; [|auto].
    intros r1 rs1 E. injection E as <- <-. reflexivity.
Qed.

Lemma process_line_first_finding_witness :
  exists out, process_line example3 = [out] /\ run [example3] = [out].
Proof.
  destruct (@process_line_first_finding example3) as (out & H1 & H2 & _).
  - vm_compute. discriminate.
  - exists out. split; assumption.
Defined.

(** ** The typo detector *)

(** C6 as stated fails: the token [_1234] has five characters and no letter
    at all, and it is flagged. *)
Lemma caseless_token_flagged :
  In caseless_token (detect_typos caseless_token) /\
  In caseless_token (findall false token_pattern caseless_token) /\
  has_upper caseless_token = false /\ has_lower caseless_token = false /\
  typo_condition caseless_token = false.
Proof. vm_compute. repeat split; try reflexivity; left; reflexivity. Qed.

(** C6, amended.  The typo detector flags a token of the line if and only
    if the token is not, case-insensitively, a canonical name or an alias,
    is longer than four characters, and is neither all-uppercase nor
    all-lowercase for Python, that is: it has letters of both cases, or no
    letter at all.  So tokens of at most four characters, tokens that
    [isupper] accepts and tokens that [islower] accepts are never
    flagged. *)
Theorem detect_typos_flags_iff :
  (forall line t,
      In t (detect_typos line) <->
      In t (findall false token_pattern line) /\
      known t = false /\ 4 < length t /\
      ((has_upper t = true /\ has_lower t = true)
       \/ (has_upper t = false /\ has_lower t = false))) /\
  (forall line t, length t <= 4 -> ~ In t (detect_typos line)) /\
  (forall line t, Py.isupper t = true -> ~ In t (detect_typos line)) /\
  (forall line t, Py.islower t = true -> ~ In t (detect_typos line)).
Proof.
  assert (K : forall line t,
             In t (detect_typos line) <->
             In t (findall false token_pattern line) /\
             known t = false /\ 4 < length t /\
             Py.isupper t = false /\ Py.islower t = false).
  { intros line t. unfold detect_typos. rewrite filter_In.
    unfold typo_test. rewrite BasicFacts.typo_test_known.
    destruct (known t); simpl.
    - split; [intros [_ H]; discriminate|intros (_ & H & _); discriminate].
    - rewrite !andb_true_iff, Nat.ltb_lt, !negb_true_iff. tauto. }
  split; [|split; [|split]].
  - intros line t. rewrite K.
    pose proof (BasicFacts.mixed_or_caseless t). tauto.
  - intros line t Hl H. apply K in H as (_ & _ & H & _). lia.
  - intros line t Hu H. apply K in H as (_ & _ & _ & H & _).
    rewrite Hu in H. discriminate.
  - intros line t Hu H. apply K in H as (_ & _ & _ & _ & H).
    rewrite Hu in H. discriminate.
Qed.

Lemma detect_typos_flags_iff_witness :
  ~ In ("admin" : str) (detect_typos example1_normalized).
Proof.
  apply (proj2 (proj2 (proj2 detect_typos_flags_iff))).
  vm_compute. reflexivity.
Defined.

(** ** The illogical-comparison detector *)

(** C7.  The detector does not report exactly the comparisons that the
    specification names.  In [quoted_text_line] the value stands between quotes and is
    not a number, and still a message is reported, about a blank value
    without quotes: the quoted text holds a hyphen, so the closing quote
    does not follow the run of word characters, and the pattern matches
    with an empty quote group and the space before the opening quote as
    the value.  In [bare_number_line] the value without quotes is a
    number, and it is reported, with the action clause, as a string.  In
    [decimal_line] the value without quotes is not made of digits only,
    and nothing is reported: the captured value ends at the point.  On
    Example 3 the output is the Finding that the specification gives. *)
Theorem quoted_text_flagged_as_unquoted :
  map (fun m => (m_text m, m_group m 3, m_group m 4))
    (finditer false illogical_pattern quoted_text_line)
  = [("x == " : str, [], " " : str)] /\
  detect_illogical quoted_text_line
  = [("Comparing unquoted value   as string" : str)] /\
  process_line quoted_text_line
  = [("FLAG: Illogical comparison: Comparing unquoted value   as string"
      : str) ++ (" in line: " : str) ++ quoted_text_line] /\
  detect_illogical bare_number_line
  = [("Comparing unquoted value 100 THEN y as string" : str)] /\
  map (fun m => (m_text m, m_group m 3, m_group m 4))
    (finditer false illogical_pattern decimal_line)
  = [("x == 5" : str, [], "5" : str)] /\
  detect_illogical decimal_line = [] /\
  process_line example3
  = [("FLAG: Illogical comparison: Comparing string literal " : str)
       ++ quoted "50" ++ (" as number in line: " : str) ++ example3].
Proof. vm_compute. repeat split; reflexivity. Qed.

(** ** The contradiction detector *)

(** C8.  The detector fires on guards that compare the variable with
    different values.  In [longer_value_line] the first guard compares x
    with 1 and the second with 10: the pattern ends with the reference to
    the first value and nothing delimits it, so the second guard only has
    to start with the text of the first, and the match ends inside the
    second value.  The line is reported as contradictory.  The guards
    [x > 5] and [x < 5], the specification's example of different guards,
    are not reported. *)
Theorem longer_value_flagged_as_contradiction :
  option_map (fun m => (m_text m, m_group m 1, m_group m 2))
    (search false contradiction_pattern longer_value_line)
  = Some ("IF x == 1 THEN a ELSE IF x == 1" : str, "x" : str, "1" : str) /\
  detect_contradiction longer_value_line = true /\
  process_line longer_value_line
  = [("FLAG: Contradictory/unreachable logic in line: " : str)
       ++ longer_value_line] /\
  detect_contradiction always_false_line = false.
Proof. vm_compute. repeat split; reflexivity. Qed.

(** Text between the first guard and THEN is not covered by the pattern:
    [nested_guard_line] has the guard [a == 1] in both branches, with a
    second condition before THEN, and the detector does not fire. *)
Lemma written_shape_not_detected :
  written_shape nested_guard_line /\
  detect_contradiction nested_guard_line = false.
Proof.
  split; [|vm_compute; reflexivity].
  exists [], ("a" : str), ("1" : str), (" AND b == 2 " : str),
    ("THEN" : str), (" x " : str), (" THEN y" : str).
  repeat split; try discriminate. left. reflexivity.
Qed.

(** ** The case-style fallback *)

Lemma unregistered_check (v : str) :
  forallb (fun e => negb (entry_matches v (to_snake_case v) e)) VAR_SYNONYMS
  = true ->
  unregistered v.
Proof.
  intros H canon syns Hin. rewrite forallb_forall in H.
  specialize (H _ Hin). unfold entry_matches in H. simpl in H.
  rewrite negb_true_iff, !orb_false_iff in H. destruct H as [[H1 H2] H3].
  apply BasicFacts.mem_false in H1, H2, H3. auto.
Qed.

(** C9 as stated fails: the identifier [foo ], as the operand pattern
    captures it before a spaced operator, matches no entry of the table,
    and [normalize_var] returns [foo], which is not the case-style fallback
    [foo_] of that string. *)
Lemma spaced_identifier_stripped :
  unregistered spaced_identifier /\
  normalize_var spaced_identifier = ("foo" : str) /\
  case_style_fallback spaced_identifier = ("foo_" : str) /\
  normalize_var spaced_identifier <> case_style_fallback spaced_identifier.
Proof.
  split; [apply unregistered_check; vm_compute; reflexivity|].
  vm_compute. repeat split; try reflexivity. discriminate.
Qed.

(** C9, amended.  [normalize_var] first strips the whitespace around its
    argument and removes the quote characters from it.  When no entry of
    the Synonym Table matches the cleaned identifier, it returns (it is a
    total function: nothing is raised) the case-style fallback of the
    cleaned identifier: an underscore between every lowercase or digit
    character and a following uppercase character, every run of whitespace
    and hyphens replaced by one underscore, everything lowercased. *)
Theorem normalize_var_fallback (var : str) :
  unregistered (clean var) ->
  normalize_var var = to_snake_case (clean var) /\
  normalize_var var = case_style_fallback (clean var).
Proof.
  intros U. rewrite <- SnakeFacts.to_snake_case_fallback.
  assert (E : normalize_var var = to_snake_case (clean var)); [|auto].
  unfold normalize_var.
  rewrite BasicFacts.find_none_intro; [reflexivity|].
  intros [canon syns] Hin. destruct (U _ _ Hin) as (U1 & U2 & U3).
  unfold entry_matches. simpl.
  apply BasicFacts.mem_false in U1, U2, U3. rewrite U1, U2, U3. reflexivity.
Qed.

Lemma normalize_var_fallback_witness :
  normalize_var spaced_identifier = case_style_fallback (clean spaced_identifier).
Proof.
  apply (@normalize_var_fallback spaced_identifier).
  apply unregistered_check. vm_compute. reflexivity.
Defined.

(** ** The value of an unquoted comparison *)

(** C10.  Whenever the detector examines an unquoted value (group 3
    empty), that value is a run of word and whitespace characters that
    follows the operator and extends as far as such characters go.  In a
    line <var> <op> <digits> THEN|DO <action> (single spaces, the action
    made of word and whitespace characters) the pattern matches the whole
    line once, the value is <digits> THEN|DO <action>, not <digits>, and
    the detector reports it as an unquoted string. *)
Theorem unquoted_value_is_longest_run :
  (forall line m,
      In m (finditer false illogical_pattern line) ->
      m_group m 3 = [] ->
      value_is_maximal_run line m) /\
  (forall var op digits kw0 action,
      var <> [] -> forallb Py.is_word var = true ->
      In op comparison_ops ->
      digits <> [] -> forallb Py.is_digit digits = true ->
      then_or_do kw0 ->
      forallb word_or_space action = true ->
      finditer false illogical_pattern (guarded_line var op digits kw0 action)
      = [RMatch (guarded_line var op digits kw0 action)
           [(4, guarded_value digits kw0 action); (3, []); (2, op);
            (1, var)]] /\
      detect_illogical (guarded_line var op digits kw0 action)
      = [("Comparing unquoted value " : str)
           ++ guarded_value digits kw0 action ++ (" as string" : str)]).
Proof.
  split; [exact IllogicalFacts.finditer_unquoted_maximal|].
  intros var op digits kw0 action Hvar Fvar Hop Hdig Fdig Hkw Fact.
  assert (F : finditer false illogical_pattern
                 (guarded_line var op digits kw0 action)
               = [RMatch (guarded_line var op digits kw0 action)
                    [(4, guarded_value digits kw0 action); (3, []); (2, op);
                     (1, var)]])
    by (apply IllogicalFacts.finditer_guarded; assumption).
  split; [exact F|].
  unfold detect_illogical. rewrite F. cbn [flat_map].
  unfold illogical_message, m_group.
  cbn [m_caps group Nat.eqb nonempty].
  rewrite IllogicalFacts.guarded_value_not_digits by exact Hkw.
  reflexivity.
Qed.

Lemma unquoted_value_is_longest_run_witness :
  detect_illogical ("user_id > 100 THEN allow" : str)
  = [("Comparing unquoted value 100 THEN allow as string" : str)].
Proof.
  apply (proj2 unquoted_value_is_longest_run
           ("user_id" : str) (">" : str) ("100" : str) ("THEN" : str)
           ("allow" : str)).
  - discriminate.
  - vm_compute. reflexivity.
  - vm_compute. auto.
  - discriminate.
  - vm_compute. reflexivity.
  - left. reflexivity.
  - vm_compute. reflexivity.
Defined.


(* ================================================================== *)
(** * Further properties of the program *)
(* ================================================================== *)

Module PyFacts.

Import Sem.

Lemma lstrip_stops (s : str) : stops Py.is_space (Py.lstrip s).
Proof.
  induction s as [|x s IH]; simpl; auto.
  destruct (Py.is_space x) eqn:Hx; auto.
Qed.

Lemma lstrip_fixed (s : str) : stops Py.is_space s -> Py.lstrip s = s.
Proof. destruct s as [|x s]; simpl; auto. intros ->. reflexivity. Qed.

Lemma lstrip_idem (s : str) : Py.lstrip (Py.lstrip s) = Py.lstrip s.
Proof. apply lstrip_fixed, lstrip_stops. Qed.

Lemma lstrip_split (s : str) :
  exists ws, s = ws ++ Py.lstrip s /\ forallb Py.is_space ws = true.
Proof.
  induction s as [|x s (ws & E & F)]; simpl.
  - exists []. auto.
  - destruct (Py.is_space x) eqn:Hx.
    + exists (x :: ws). simpl. rewrite Hx, F. rewrite E at 1. auto.
    + exists []. auto.
Qed.

Lemma rstrip_split (s : str) :
  exists ws, s = Py.rstrip s ++ ws /\ forallb Py.is_space ws = true.
Proof.
  unfold Py.rstrip. destruct (lstrip_split (rev s)) as (ws & E & F).
  exists (rev ws). split.
  - rewrite <- rev_app_distr, <- E, rev_involutive. reflexivity.
  - rewrite forallb_forall in *. intros x Hx. apply F. apply in_rev. exact Hx.
Qed.

Lemma rstrip_idem (s : str) : Py.rstrip (Py.rstrip s) = Py.rstrip s.
Proof. unfold Py.rstrip. rewrite rev_involutive, lstrip_idem. reflexivity. Qed.

(** Stripping on the right keeps a text that does not start with
    whitespace such. *)
Lemma rstrip_stops (s : str) :
  stops Py.is_space s -> stops Py.is_space (Py.rstrip s).
Proof.
  intros H. destruct (rstrip_split s) as (ws & E & _).
  destruct (Py.rstrip s) as [|x t]; simpl; auto.
  rewrite E in H. exact H.
Qed.

Lemma strip_idem (s : str) : Py.strip (Py.strip s) = Py.strip s.
Proof.
  unfold Py.strip.
  rewrite (lstrip_fixed (Py.rstrip (Py.lstrip s)))
    by apply rstrip_stops, lstrip_stops.
  apply rstrip_idem.
Qed.

End PyFacts.

Module LineFacts.

Import Re Sem Buster Spec Props.

Lemma process_line_singleton (line : str) :
  exists out, process_line line = [out].
Proof.
  unfold process_line.
  destruct (detect_redundancy _); [|eauto].
  destruct (detect_contradiction _); [eauto|].
  destruct (detect_typos _); [|eauto].
  destruct (detect_illogical _); eauto.
Qed.

Lemma run_app (a b : list str) : run (a ++ b) = run a ++ run b.
Proof. unfold run. apply flat_map_app. Qed.

Lemma run_filter (lines : list str) :
  run lines = concat (map process_line (filter nonblank lines)).
Proof.
  unfold run, nonblank. induction lines as [|l lines IH]; auto.
  cbn [flat_map filter].
  destruct (nonempty (Py.strip l)); cbn [map concat app]; rewrite IH;
    reflexivity.
Qed.

Lemma run_length (lines : list str) :
  length (run lines) = length (filter nonblank lines).
Proof.
  rewrite run_filter. induction (filter nonblank lines) as [|l ls IH]; auto.
  cbn [map concat]. rewrite length_app, IH.
  destruct (process_line_singleton l) as (out & ->). reflexivity.
Qed.

End LineFacts.

Import Re Sem Buster Spec Props.

(** X1.  The loop of [main] prints one line for every non-blank line of the
    input, in the order of the input, and nothing for a blank one: the
    output of a file is the outputs of its non-blank lines one after the
    other, and reading two pieces of input in a row gives the two outputs
    in a row. *)
Theorem run_one_output_per_nonblank_line :
  forall lines more,
    run lines = concat (map process_line (filter nonblank lines)) /\
    length (run lines) = length (filter nonblank lines) /\
    run (lines ++ more) = run lines ++ run more.
Proof.
  intros lines more. split; [apply LineFacts.run_filter|].
  split; [apply LineFacts.run_length|apply LineFacts.run_app].
Qed.

(** X2.  [process_line] itself does not skip a blank line: on an empty or
    whitespace-only line it returns one output, the empty text, and no
    Finding. *)
Theorem process_line_blank (line : str) :
  Py.strip line = [] -> process_line line = [[]].
Proof.
  intros H. unfold process_line. rewrite H. vm_compute. reflexivity.
Qed.

Lemma process_line_blank_witness :
  process_line (" " : str) = [[]].
Proof. apply process_line_blank. vm_compute. reflexivity. Defined.

(** X3.  The whitespace around a line, the newline that ends it in the file
    among it, is of no consequence: a line and the same line stripped give
    the same output, and the Finding echoes the stripped line. *)
Theorem process_line_ignores_surrounding_space (line : str) :
  process_line (Py.strip line) = process_line line.
Proof. unfold process_line. rewrite PyFacts.strip_idem. reflexivity. Qed.

Module CharFacts.

Ltac all_chars c :=
  destruct c as [[] [] [] [] [] [] [] []]; vm_compute; reflexivity.

Lemma lower_not_upper (c : ascii) : Py.is_upper (Py.lower_c c) = false.
Proof. all_chars c. Qed.

Lemma lower_sep (c : ascii) :
  space_or_hyphen (Py.lower_c c) = space_or_hyphen c.
Proof. all_chars c. Qed.

Lemma lower_quote (c : ascii) : quote_char (Py.lower_c c) = quote_char c.
Proof. all_chars c. Qed.

Lemma lower_underscore (c : ascii) :
  Ascii.eqb (Py.lower_c c) Py.underscore = Ascii.eqb c Py.underscore.
Proof. all_chars c. Qed.

Lemma lower_fixed (c : ascii) : Py.is_upper c = false -> Py.lower_c c = c.
Proof. unfold Py.lower_c. intros ->. reflexivity. Qed.

Lemma lower_lower (c : ascii) : Py.lower_c (Py.lower_c c) = Py.lower_c c.
Proof. apply lower_fixed, lower_not_upper. Qed.

Lemma space_is_sep (c : ascii) :
  Py.is_space c = true -> space_or_hyphen c = true.
Proof. unfold space_or_hyphen. intros ->. reflexivity. Qed.

End CharFacts.

Module FallbackFacts.

Import CharFacts.

Lemma plain_parts (c : ascii) :
  plain c = true <-> Py.is_upper c = false /\ space_or_hyphen c = false.
Proof.
  unfold plain, snake_excluded. rewrite negb_true_iff, orb_false_iff. tauto.
Qed.

Lemma collapse_no_sep (b : bool) (s : str) :
  forallb (fun c => negb (space_or_hyphen c)) (collapse_runs b s) = true.
Proof.
  revert b. induction s as [|x s IH]; intros b; simpl; auto.
  destruct (space_or_hyphen x) eqn:Hx.
  - destruct b; simpl; auto.
  - simpl. rewrite Hx. simpl. auto.
Qed.

Lemma lower_plain (t : str) :
  forallb (fun c => negb (space_or_hyphen c)) t = true ->
  forallb plain (Py.lower t) = true.
Proof.
  induction t as [|x t IH]; simpl; auto. intros H.
  apply andb_prop in H as [Hx H]. rewrite (IH H), andb_true_r.
  apply plain_parts. rewrite lower_not_upper, lower_sep.
  apply negb_true_iff in Hx. auto.
Qed.

Lemma fallback_plain (s : str) : forallb plain (case_style_fallback s) = true.
Proof. apply lower_plain, collapse_no_sep. Qed.

Lemma insert_fixed (t : str) :
  forallb plain t = true -> insert_underscores t = t.
Proof.
  induction t as [|x t IH]; auto. intros H. simpl in H.
  apply andb_prop in H as [_ H]. specialize (IH H).
  destruct t as [|y t]; auto.
  cbn [insert_underscores]. cbn [insert_underscores] in IH.
  simpl in H. apply andb_prop in H as [Hy _]. apply plain_parts in Hy as [Hy _].
  rewrite Hy, andb_false_r. f_equal. exact IH.
Qed.

Lemma collapse_fixed (t : str) :
  forallb plain t = true -> collapse_runs false t = t.
Proof.
  induction t as [|x t IH]; auto. simpl. intros H.
  apply andb_prop in H as [Hx H]. apply plain_parts in Hx as [_ Hx].
  rewrite Hx, (IH H). reflexivity.
Qed.

Lemma lower_fixed_text (t : str) :
  forallb plain t = true -> Py.lower t = t.
Proof.
  induction t as [|x t IH]; auto. simpl. intros H.
  apply andb_prop in H as [Hx H]. apply plain_parts in Hx as [Hx _].
  rewrite (lower_fixed _ Hx), (IH H). reflexivity.
Qed.

Lemma fallback_fixed (t : str) :
  forallb plain t = true -> case_style_fallback t = t.
Proof.
  intros H. unfold case_style_fallback.
  rewrite (insert_fixed _ H), (collapse_fixed _ H). apply lower_fixed_text, H.
Qed.

Lemma insert_unquoted (t : str) :
  unquoted t = true -> unquoted (insert_underscores t) = true.
Proof.
  unfold unquoted. induction t as [|x t IH]; auto. intros H.
  assert (H' := H). simpl in H. apply andb_prop in H as [Hx H].
  specialize (IH H). destruct t as [|y t]; auto.
  cbn [insert_underscores]. cbn [insert_underscores] in IH.
  destruct (lower_or_digit x && Py.is_upper y); simpl; rewrite Hx; exact IH.
Qed.

Lemma collapse_unquoted (b : bool) (t : str) :
  unquoted t = true -> unquoted (collapse_runs b t) = true.
Proof.
  unfold unquoted. revert b. induction t as [|x t IH]; intros b; auto.
  simpl. intros H. apply andb_prop in H as [Hx H].
  destruct (space_or_hyphen x); [destruct b|]; cbn [forallb].
  - apply (IH true H).
  - change (negb (quote_char Py.underscore)) with true.
    cbn [andb]. apply (IH true H).
  - rewrite Hx. apply (IH false H).
Qed.

Lemma lower_unquoted (t : str) :
  unquoted t = true -> unquoted (Py.lower t) = true.
Proof.
  unfold unquoted. induction t as [|x t IH]; auto. simpl. intros H.
  apply andb_prop in H as [Hx H]. rewrite lower_quote, Hx. auto.
Qed.

Lemma clean_unquoted (var : str) : unquoted (clean var) = true.
Proof.
  unfold unquoted, clean, Py.remove. apply forallb_forall. intros c Hc.
  apply filter_In in Hc as [Hc Hd]. apply filter_In in Hc as [_ Hs].
  unfold quote_char. apply negb_true_iff in Hd, Hs. rewrite Hd, Hs.
  reflexivity.
Qed.

End FallbackFacts.

(** X4.  [to_snake_case] is idempotent: its result is already in the form
    it produces. *)
Theorem to_snake_case_idempotent (s : str) :
  to_snake_case (to_snake_case s) = to_snake_case s.
Proof.
  rewrite !SnakeFacts.to_snake_case_fallback.
  apply FallbackFacts.fallback_fixed, FallbackFacts.fallback_plain.
Qed.

(** X5.  The result of [to_snake_case] has no uppercase letter, no
    whitespace and no hyphen, whatever the argument. *)
Theorem to_snake_case_alphabet (s : str) (c : ascii) :
  In c (to_snake_case s) ->
  Py.is_upper c = false /\ Py.is_space c = false /\ c <> Py.hyphen.
Proof.
  intros H. rewrite SnakeFacts.to_snake_case_fallback in H.
  pose proof (FallbackFacts.fallback_plain s) as P.
  rewrite forallb_forall in P. specialize (P _ H).
  apply FallbackFacts.plain_parts in P as [U S]. split; [exact U|].
  unfold space_or_hyphen in S. apply orb_false_iff in S as [S1 S2].
  split; [exact S1|]. intros ->. vm_compute in S2. discriminate.
Qed.

Lemma to_snake_case_alphabet_witness :
  Py.is_upper "_"%char = false /\ Py.is_space "_"%char = false
  /\ "_"%char <> Py.hyphen.
Proof.
  apply (@to_snake_case_alphabet ("userName" : str)).
  vm_compute. auto 10.
Defined.

Module VarFacts.

Import CharFacts FallbackFacts.

Lemma canonical_names_safe :
  forallb (fun e => forallb safe (fst e)) VAR_SYNONYMS = true.
Proof. vm_compute. reflexivity. Qed.

Lemma normalize_var_cases (var : str) :
  (exists canon syns,
      In (canon, syns) VAR_SYNONYMS /\
      entry_matches (clean var) (to_snake_case (clean var)) (canon, syns)
      = true /\
      normalize_var var = canon)
  \/ normalize_var var = to_snake_case (clean var).
Proof.
  unfold normalize_var.
  destruct (find _ VAR_SYNONYMS) as [[canon syns]|] eqn:F; [left|right; auto].
  apply find_some in F as [Hin Hm]. eauto.
Qed.

Lemma normalize_var_safe (var : str) :
  forallb safe (normalize_var var) = true.
Proof.
  destruct (normalize_var_cases var) as [(canon & syns & Hin & _ & ->)| ->].
  - pose proof canonical_names_safe as S. rewrite forallb_forall in S.
    exact (S _ Hin).
  - rewrite SnakeFacts.to_snake_case_fallback.
    pose proof (fallback_plain (clean var)) as P.
    assert (Q : unquoted (case_style_fallback (clean var)) = true).
    { unfold case_style_fallback.
      apply lower_unquoted, collapse_unquoted, insert_unquoted, clean_unquoted. }
    unfold unquoted in Q. rewrite forallb_forall in *.
    intros c Hc. unfold safe. rewrite (P _ Hc), (Q _ Hc). reflexivity.
Qed.

End VarFacts.

(** X6.  Whatever it is given, [normalize_var] returns a name without
    uppercase letter, whitespace, hyphen or quote character: a canonical
    name of the table or a case-style form. *)
Theorem normalize_var_alphabet (var : str) (c : ascii) :
  In c (normalize_var var) ->
  Py.is_upper c = false /\ Py.is_space c = false /\ c <> Py.hyphen
  /\ quote_char c = false.
Proof.
  intros H. pose proof (VarFacts.normalize_var_safe var) as S.
  rewrite forallb_forall in S. specialize (S _ H).
  unfold safe in S. apply andb_prop in S as [P Q].
  apply FallbackFacts.plain_parts in P as [U S].
  unfold space_or_hyphen in S. apply orb_false_iff in S as [S1 S2].
  apply negb_true_iff in Q. repeat split; auto.
  intros ->. vm_compute in S2. discriminate.
Qed.

Lemma normalize_var_alphabet_witness :
  Py.is_upper "u"%char = false /\ Py.is_space "u"%char = false
  /\ "u"%char <> Py.hyphen /\ quote_char "u"%char = false.
Proof.
  apply (@normalize_var_alphabet (" 'User Type' " : str)).
  vm_compute. auto 10.
Defined.

Module AliasFacts.

Import CharFacts FallbackFacts BasicFacts.

Lemma alias_pairs_In (canon a : str) :
  In (canon, a) alias_pairs <->
  exists syns, In (canon, syns) VAR_SYNONYMS /\ In a syns.
Proof.
  unfold alias_pairs. rewrite in_flat_map. split.
  - intros ([c syns] & Hin & H). apply in_map_iff in H as (a' & E & Ha).
    simpl in E. injection E as -> ->. eauto.
  - intros (syns & Hin & Ha). exists (canon, syns). split; [exact Hin|].
    apply in_map_iff. exists a. auto.
Qed.

(** The table has no clash: two aliases equal up to letter case, or equal
    up to letter case and underscores, belong to the same canonical name;
    and no alias has whitespace or a hyphen. *)
Lemma table_case_clash :
  forallb (fun p =>
    forallb (fun q =>
      implb (Py.eqb (Py.lower (snd p)) (Py.lower (snd q)))
        (Py.eqb (fst p) (fst q))) alias_pairs) alias_pairs = true.
Proof. vm_compute. reflexivity. Qed.

Lemma table_underscore_clash :
  forallb (fun p =>
    forallb (fun q =>
      implb (Py.eqb (drop_underscores (Py.lower (snd p)))
               (drop_underscores (snd q)))
        (Py.eqb (fst p) (fst q))) alias_pairs) alias_pairs = true.
Proof. vm_compute. reflexivity. Qed.

Lemma table_no_sep :
  forallb (fun p =>
    forallb (fun c => negb (space_or_hyphen c)) (Py.lower (snd p)))
    alias_pairs = true.
Proof. vm_compute. reflexivity. Qed.

Lemma clash_use (f : str * str -> str * str -> bool) (p q : str * str) :
  forallb (fun p => forallb (fun q => implb (f p q) (Py.eqb (fst p) (fst q)))
                      alias_pairs) alias_pairs = true ->
  In p alias_pairs -> In q alias_pairs -> f p q = true -> fst p = fst q.
Proof.
  intros H Hp Hq Hf. rewrite forallb_forall in H. specialize (H _ Hp).
  rewrite forallb_forall in H. specialize (H _ Hq). rewrite Hf in H.
  simpl in H. apply eqb_eq. exact H.
Qed.

Lemma drop_cons (x : ascii) (l : str) :
  drop_underscores (x :: l)
  = (if Ascii.eqb x Py.underscore then [] else [x]) ++ drop_underscores l.
Proof.
  unfold drop_underscores. cbn [filter].
  destruct (Ascii.eqb x Py.underscore); reflexivity.
Qed.

Lemma drop_insert (t : str) :
  drop_underscores (insert_underscores t) = drop_underscores t.
Proof.
  induction t as [|x t IH]; auto. destruct t as [|y t]; auto.
  cbn [insert_underscores]. cbn [insert_underscores] in IH.
  destruct (lower_or_digit x && Py.is_upper y).
  - rewrite (drop_cons x), (drop_cons Py.underscore), IH, (drop_cons x).
    reflexivity.
  - rewrite (drop_cons x), IH, (drop_cons x). reflexivity.
Qed.

Lemma drop_lower (t : str) :
  drop_underscores (Py.lower t) = Py.lower (drop_underscores t).
Proof.
  induction t as [|x t IH]; auto. simpl. rewrite lower_underscore.
  destruct (Ascii.eqb x Py.underscore); simpl; rewrite IH; reflexivity.
Qed.

Lemma collapse_no_run (t : str) :
  forallb (fun c => negb (space_or_hyphen c)) t = true ->
  collapse_runs false t = t.
Proof.
  induction t as [|x t IH]; auto. simpl. intros H.
  apply andb_prop in H as [Hx H]. apply negb_true_iff in Hx.
  rewrite Hx, (IH H). reflexivity.
Qed.

Lemma insert_no_sep (t : str) :
  forallb (fun c => negb (space_or_hyphen c)) t = true ->
  forallb (fun c => negb (space_or_hyphen c)) (insert_underscores t) = true.
Proof.
  induction t as [|x t IH]; auto. intros H. assert (H' := H).
  simpl in H. apply andb_prop in H as [Hx H]. specialize (IH H).
  destruct t as [|y t]; auto.
  cbn [insert_underscores]. cbn [insert_underscores] in IH.
  destruct (lower_or_digit x && Py.is_upper y); simpl; rewrite Hx; exact IH.
Qed.

Lemma lower_no_sep (t : str) :
  forallb (fun c => negb (space_or_hyphen c)) (Py.lower t)
  = forallb (fun c => negb (space_or_hyphen c)) t.
Proof.
  induction t as [|x t IH]; auto. simpl. rewrite lower_sep, IH. reflexivity.
Qed.

Lemma lower_idem (t : str) : Py.lower (Py.lower t) = Py.lower t.
Proof.
  induction t as [|x t IH]; auto. simpl. rewrite lower_lower, IH. reflexivity.
Qed.

(** Without whitespace and hyphens, the case-style form is the lowercased
    text with some underscores more. *)
Lemma drop_snake (t : str) :
  forallb (fun c => negb (space_or_hyphen c)) t = true ->
  drop_underscores (to_snake_case t) = drop_underscores (Py.lower t).
Proof.
  intros H. rewrite SnakeFacts.to_snake_case_fallback.
  unfold case_style_fallback.
  rewrite (collapse_no_run _ (insert_no_sep _ H)).
  rewrite !drop_lower, drop_insert. reflexivity.
Qed.

Lemma resolve (canon a v : str) :
  In (canon, a) alias_pairs ->
  Py.lower (clean v) = Py.lower a ->
  normalize_var v = canon.
Proof.
  intros Hp E.
  assert (Hsep : forallb (fun c => negb (space_or_hyphen c)) (clean v) = true).
  { rewrite <- lower_no_sep, E. pose proof table_no_sep as T.
    rewrite forallb_forall in T. exact (T _ Hp). }
  apply alias_pairs_In in Hp as Hq. destruct Hq as (syns & Hin & Ha).
  unfold normalize_var.
  destruct (find _ VAR_SYNONYMS) as [[canon' syns']|] eqn:F.
  - apply find_some in F as [Hin' Hm]. unfold entry_matches in Hm.
    simpl in Hm. apply orb_prop in Hm as [Hm|Hm];
      [apply orb_prop in Hm as [Hm|Hm]|]; apply mem_In in Hm.
    + (* the cleaned text is an alias *)
      assert (Hp' : In (canon', clean v) alias_pairs)
        by (apply alias_pairs_In; eauto).
      symmetry.
      apply (@clash_use (fun p q => Py.eqb (Py.lower (snd p))
                                      (Py.lower (snd q)))
               (canon, a) (canon', clean v) table_case_clash Hp Hp').
      simpl. apply eqb_eq. auto.
    + (* its case-style form is an alias *)
      assert (Hp' : In (canon', to_snake_case (clean v)) alias_pairs)
        by (apply alias_pairs_In; eauto).
      symmetry.
      apply (@clash_use (fun p q => Py.eqb
                                      (drop_underscores (Py.lower (snd p)))
                                      (drop_underscores (snd q)))
               (canon, a) (canon', to_snake_case (clean v))
               table_underscore_clash Hp Hp').
      simpl. apply eqb_eq. rewrite drop_snake by exact Hsep.
      rewrite E. reflexivity.
    + (* it is an alias up to letter case *)
      apply in_map_iff in Hm as (a' & E' & Ha').
      assert (Hp' : In (canon', a') alias_pairs)
        by (apply alias_pairs_In; eauto).
      symmetry.
      apply (@clash_use (fun p q => Py.eqb (Py.lower (snd p))
                                      (Py.lower (snd q)))
               (canon, a) (canon', a') table_case_clash Hp Hp').
      simpl. apply eqb_eq. congruence.
  - exfalso. apply find_none with (x := (canon, syns)) in F; [|exact Hin].
    unfold entry_matches in F. simpl in F.
    apply orb_false_iff in F as [_ F]. apply mem_false in F. apply F.
    rewrite E. apply in_map. exact Ha.
Qed.

End AliasFacts.

(** X7.  [normalize_var] resolves every alias of the table, written in any
    letter case, with whitespace around it or quote characters in it, to
    its canonical name: no entry that comes earlier in the table captures
    it. *)
Theorem normalize_var_resolves_aliases (canon : str) (syns : list str)
    (a v : str) :
  In (canon, syns) VAR_SYNONYMS -> In a syns ->
  Py.lower (clean v) = Py.lower a ->
  normalize_var v = canon.
Proof.
  intros Hin Ha E. apply AliasFacts.resolve with (a := a); [|exact E].
  apply AliasFacts.alias_pairs_In. eauto.
Qed.

Lemma normalize_var_resolves_aliases_witness :
  normalize_var (" 'ACCT_status' " : str) = ("account_status" : str).
Proof.
  apply (@normalize_var_resolves_aliases ("account_status" : str)
           ["ACCT_STATUS" : str; "accountStatus" : str;
            "status_of_account" : str; "Acct_Status" : str;
            "account_status" : str]
           ("ACCT_STATUS" : str)).
  - vm_compute. auto.
  - left. reflexivity.
  - vm_compute. reflexivity.
Defined.

Module RedundancyFacts.

Import BasicFacts ReFacts ScanFacts.

Lemma loop_acc (conds seen red : list str) :
  redundancy_loop conds seen red = red ++ redundancy_loop conds seen [].
Proof.
  revert seen red. induction conds as [|c conds IH]; intros seen red; simpl.
  - symmetry. apply app_nil_r.
  - destruct (Py.mem (clean_condition c) seen).
    + rewrite (IH seen (red ++ [clean_condition c])), (IH seen [_]).
      rewrite <- app_assoc. reflexivity.
    + apply IH.
Qed.

(** Nothing is reported exactly when the cleaned conditions are all
    different, and different from those seen before. *)
Lemma loop_nil (conds seen : list str) :
  redundancy_loop conds seen [] = [] <->
  NoDup (map clean_condition conds) /\
  (forall c, In c (map clean_condition conds) -> ~ In c seen).
Proof.
  revert seen. induction conds as [|c conds IH]; intros seen; simpl.
  - split; [intros _|reflexivity]. split; [constructor|tauto].
  - destruct (Py.mem (clean_condition c) seen) eqn:M.
    + rewrite loop_acc. apply mem_In in M. split; [discriminate|].
      intros [_ H]. exfalso. apply (H (clean_condition c)); auto.
    + apply mem_false in M. rewrite IH. split.
      * intros [N H]. split.
        -- constructor; [|exact N]. intros Hc. apply (H _ Hc). left.
           reflexivity.
        -- intros x [<-|Hx]; [exact M|]. intros Hs. apply (H _ Hx). right.
           exact Hs.
      * intros [N H]. inversion N as [|? ? N1 N2]; subst. split; [exact N2|].
        intros x Hx [<-|Hs]; [contradiction|]. apply (H x); auto.
Qed.

(** What is reported is a cleaned condition seen before. *)
Lemma loop_In (conds seen : list str) (r : str) :
  In r (redundancy_loop conds seen []) ->
  exists l1 l2, map clean_condition conds = l1 ++ r :: l2 /\
                (In r seen \/ In r l1).
Proof.
  revert seen. induction conds as [|c conds IH]; intros seen; simpl.
  - contradiction.
  - destruct (Py.mem (clean_condition c) seen) eqn:M.
    + rewrite loop_acc. simpl. intros [<-|H].
      * apply mem_In in M. exists [], (map clean_condition conds). auto.
      * destruct (IH _ H) as (l1 & l2 & E & D).
        exists (clean_condition c :: l1), l2. rewrite E. split; auto.
        destruct D; simpl; auto.
    + intros H. destruct (IH _ H) as (l1 & l2 & E & D).
      exists (clean_condition c :: l1), l2. rewrite E. split; auto.
      destruct D as [[<-|D]|D]; simpl; auto.
Qed.

Lemma conditions_stripped (line c : str) :
  In c (conditions line) -> c <> [] /\ Py.strip c = c.
Proof.
  unfold conditions. intros H. apply in_map_iff in H as (c0 & <- & H).
  apply filter_In in H as [_ H]. split.
  - destruct (Py.strip c0); [discriminate|discriminate].
  - apply PyFacts.strip_idem.
Qed.

Lemma clean_condition_stripped (c : str) :
  Py.strip (clean_condition c) = clean_condition c.
Proof. unfold clean_condition. apply PyFacts.strip_idem. Qed.

Lemma den_whole_word (t : str) (st st' : mstate) :
  den false (whole_word t) st st' -> rest st = t ++ rest st'.
Proof.
  unfold whole_word. cbn [seqs den].
  intros (st1 & [_ ->] & st2 & D & [_ ->]).
  apply den_lit in D as (s' & E & ->). exact E.
Qed.

(** A connective found by the splitting pattern is the text AND or OR. *)
Lemma try_at_connective (adv : bool) (p : option ascii) (s : str) (m : rmatch) :
  try_at false connective_pattern adv p s = Some m ->
  (m_text m = ("AND" : str) \/ m_text m = ("OR" : str)) /\
  exists tl, s = m_text m ++ tl.
Proof.
  intros T. apply try_at_sound in T as (st' & D & E & _).
  split; [|eauto]. unfold connective_pattern in D. cbn [den] in D.
  destruct D as [D|D]; apply den_whole_word in D; cbn [rest] in D;
    rewrite D in E; apply app_inv_tail in E; auto.
Qed.

Lemma split_single (line : str) :
  fst (scan_all false connective_pattern line) = [] ->
  length (conditions line) <= 1.
Proof.
  unfold conditions, split. destruct (scan_all false connective_pattern line)
    as [ms tl]. simpl. intros ->. simpl.
  destruct (nonempty (Py.strip tl)); simpl; lia.
Qed.

Lemma detect_redundancy_connective (line : str) :
  detect_redundancy line <> [] ->
  occurs ("AND" : str) line \/ occurs ("OR" : str) line.
Proof.
  intros H.
  destruct (fst (scan_all false connective_pattern line)) as [|[g m] ms] eqn:S.
  - exfalso. apply H. apply loop_nil. apply split_single in S.
    destruct (conditions line) as [|c [|c' cs]]; simpl in *; try lia.
    + split; [constructor|tauto].
    + split; [repeat constructor; tauto|tauto].
  - assert (Hin : In (g, m) (fst (scan false connective_pattern 0 None []
                                    line))).
    { unfold scan_all in S. rewrite S. left. reflexivity. }
    apply scan_In in Hin as (pre & s' & adv & -> & T).
    apply try_at_connective in T as ([E|E] & tl & ->); rewrite E;
      [left|right]; exists pre, tl; reflexivity.
Qed.

End RedundancyFacts.

(** X8.  The redundancy detector reports nothing if and only if the cleaned
    conditions of the line are pairwise different. *)
Theorem detect_redundancy_nil_iff (line : str) :
  detect_redundancy line = [] <->
  NoDup (map clean_condition (conditions line)).
Proof.
  unfold detect_redundancy. rewrite RedundancyFacts.loop_nil. split.
  - tauto.
  - intros N. split; [exact N|]. intros c _ [].
Qed.

(** X9.  Every condition that the redundancy detector reports stands at
    least twice among the cleaned conditions of the line, and is stripped;
    the pieces of the line from which the cleaned conditions are made,
    each taken before its action clause is cut off, are non-empty and
    stripped. *)
Theorem detect_redundancy_reports_repeats (line r : str) :
  In r (detect_redundancy line) ->
  (exists l1 l2 l3,
      map clean_condition (conditions line) = l1 ++ r :: l2 ++ r :: l3) /\
  Py.strip r = r /\
  (forall c, In c (conditions line) -> c <> [] /\ Py.strip c = c).
Proof.
  intros H. unfold detect_redundancy in H.
  apply RedundancyFacts.loop_In in H as (l1 & l2 & E & [[]|H]).
  split; [|split].
  - apply in_split in H as (a & b & ->). exists a, b, l2.
    rewrite E, <- app_assoc. reflexivity.
  - assert (Hr : In r (map clean_condition (conditions line)))
      by (rewrite E; apply in_elt).
    apply in_map_iff in Hr as (c & <- & _).
    apply RedundancyFacts.clean_condition_stripped.
  - intros c. apply RedundancyFacts.conditions_stripped.
Qed.

Lemma detect_redundancy_reports_repeats_witness :
  Py.strip ("fooBar == 2" : str) = ("fooBar == 2" : str).
Proof.
  refine (proj1 (proj2 (@detect_redundancy_reports_repeats
                          (normalize redundant_typo_line)
                          ("fooBar == 2" : str) _))).
  vm_compute. left. reflexivity.
Defined.

(** X10.  The redundancy detector never reports anything for a line in
    which neither AND nor OR occurs. *)
Theorem detect_redundancy_needs_connective (line : str) :
  detect_redundancy line <> [] ->
  occurs ("AND" : str) line \/ occurs ("OR" : str) line.
Proof. apply RedundancyFacts.detect_redundancy_connective. Qed.

Lemma detect_redundancy_needs_connective_witness :
  occurs ("AND" : str) (normalize redundant_typo_line)
  \/ occurs ("OR" : str) (normalize redundant_typo_line).
Proof.
  apply detect_redundancy_needs_connective. vm_compute. discriminate.
Defined.

Module TokenFacts.

Import ReFacts ScanFacts CharFacts.

Lemma ident_char_word (c : ascii) : ident_char c = Py.is_word c.
Proof. all_chars c. Qed.

Lemma ident_start_word (c : ascii) :
  ident_start c = true -> Py.is_word c = true.
Proof.
  unfold ident_start, Py.is_word.
  destruct (Py.is_lower c), (Py.is_upper c), (Py.is_digit c),
    (Ascii.eqb c Py.underscore); simpl; auto.
Qed.

Lemma last_char_word (t : str) (c : ascii) :
  Py.is_word c = true -> forallb Py.is_word t = true ->
  word_opt (last_char t (Some c)) = true.
Proof.
  revert c. induction t as [|x t IH]; intros c Hc H; simpl; auto.
  simpl in H. apply andb_prop in H as [Hx H]. apply (IH x Hx H).
Qed.

Lemma stops_hd (ok : ascii -> bool) (s : str) :
  match hd_error s with Some c => ok c | None => false end = false ->
  stops ok s.
Proof. destruct s; simpl; auto. Qed.

(** A token is an identifier that stands in the line as a whole word. *)
Lemma try_at_token (adv : bool) (p : option ascii) (s : str) (m : rmatch) :
  try_at false token_pattern adv p s = Some m ->
  identifier (m_text m) /\ word_opt p = false /\
  exists tl, s = m_text m ++ tl /\ stops Py.is_word tl.
Proof.
  intros T. apply try_at_sound in T as (st' & D & E & _).
  unfold token_pattern in D. cbn [seqs den] in D.
  destruct D as (st1 & [B1 ->] & st2 & (c & s1 & E1 & C1 & ->) & st3 &
                 (t & s2 & E2 & F & ->) & [B2 ->]).
  cbn [rest prev caps] in *. subst s s1.
  rewrite cls_ok_exact in C1. rewrite forallb_cls_ok_exact in F.
  assert (Fw : forallb Py.is_word t = true).
  { rewrite forallb_forall in *. intros x Hx. rewrite <- ident_char_word.
    auto. }
  pose proof (ident_start_word _ C1) as W.
  unfold at_boundary in B1, B2. cbn [prev rest hd_error word_opt] in B1, B2.
  rewrite W in B1. rewrite (last_char_word _ _ W Fw) in B2.
  change (c :: t ++ s2) with ((c :: t) ++ s2) in E.
  apply app_inv_tail in E. rewrite <- E.
  split; [exists c, t; auto|]. split.
  - destruct (word_opt p); [discriminate|reflexivity].
  - exists s2. split; [reflexivity|]. apply stops_hd.
    unfold word_opt in B2. destruct (hd_error s2); simpl in *;
      [destruct (Py.is_word a); [discriminate|reflexivity]|reflexivity].
Qed.

Lemma findall_token (line t : str) :
  In t (findall false token_pattern line) ->
  identifier t /\ occurs_as_word t line.
Proof.
  unfold findall. intros H. apply in_map_iff in H as (m & <- & H).
  apply finditer_In in H as (pre & s' & adv & -> & T).
  apply try_at_token in T as (I & P & tl & -> & S).
  split; [exact I|]. exists pre, tl. auto.
Qed.

End TokenFacts.

(** X11.  Every token that the typo detector reports is an identifier of at
    least five characters that stands in the line as a whole word. *)
Theorem detect_typos_reports_words (line t : str) :
  In t (detect_typos line) ->
  identifier t /\ 5 <= length t /\ occurs_as_word t line.
Proof.
  unfold detect_typos. intros H. apply filter_In in H as [H T].
  apply TokenFacts.findall_token in H as [I O].
  split; [exact I|]. split; [|exact O].
  unfold typo_test in T. destruct (negb _ && negb _); [|discriminate].
  apply andb_prop in T as [T _]. apply andb_prop in T as [T _].
  apply Nat.ltb_lt in T. lia.
Qed.

Lemma detect_typos_reports_words_witness :
  identifier ("fooBar" : str) /\ 5 <= length ("fooBar" : str)
  /\ occurs_as_word ("fooBar" : str) (normalize redundant_typo_line).
Proof.
  apply detect_typos_reports_words. vm_compute. left. reflexivity.
Defined.

Module ShapeFacts.

Import ReFacts ContradictionFacts.

Lemma detect_contradiction_shape (line : str) :
  detect_contradiction line = true <-> matched_shape line.
Proof.
  unfold detect_contradiction, search, matched_shape.
  assert (S := search_from_some false contradiction_pattern line None).
  destruct (search_from false contradiction_pattern None line) as [m|].
  - split; [intros _|reflexivity].
    destruct (proj1 S) as (pre & s' & st' & -> & D); [discriminate|].
    assert (E : exists st', den false contradiction_pattern
                  (MState (last_char pre None) s' []) st') by eauto.
    apply den_contradiction_pattern in E
      as (var & val & kw0 & mid & post & H).
    exists pre, var, val, kw0, mid, post.
    destruct H as (H1 & H2 & H3 & H4 & H5 & H6 & H7 & ->). auto 10.
  - split; [discriminate|].
    intros (pre & var & val & kw0 & mid & post & H1 & H2 & H3 & H4 & H5 & H6
            & H7 & ->).
    exfalso. apply (proj2 S); [|reflexivity].
    assert (E : exists st', den false contradiction_pattern
                  (MState (last_char pre None)
                     (("IF " : str) ++ var ++ (" == " : str) ++ val
                      ++ (" " : str) ++ kw0 ++ mid ++ ("ELSE IF " : str) ++ var
                      ++ (" == " : str) ++ val ++ post) []) st').
    { apply den_contradiction_pattern.
      exists var, val, kw0, mid, post. auto 10. }
    destruct E as (st' & D). eauto.
Qed.

Lemma shape_length (line : str) : matched_shape line -> 27 <= length line.
Proof.
  intros (pre & var & val & kw0 & mid & post & H1 & H2 & H3 & _ & _ & _ & H7
          & ->).
  rewrite !length_app.
  assert (2 <= length kw0) by (destruct H7 as [-> | ->]; simpl; lia).
  destruct var; [contradiction|]. destruct val; [contradiction|].
  destruct mid; [contradiction|]. simpl. lia.
Qed.

Lemma shape_context (a b line : str) :
  matched_shape line -> matched_shape (a ++ line ++ b).
Proof.
  intros (pre & var & val & kw0 & mid & post & H1 & H2 & H3 & H4 & H5 & H6
          & H7 & ->).
  exists (a ++ pre), var, val, kw0, mid, (post ++ b).
  repeat split; auto. rewrite <- !app_assoc. reflexivity.
Qed.

Lemma shape_else_if (line : str) :
  matched_shape line -> occurs ("ELSE IF " : str) line.
Proof.
  intros (pre & var & val & kw0 & mid & post & _ & _ & _ & _ & _ & _ & _
          & ->).
  exists (pre ++ ("IF " : str) ++ var ++ (" == " : str) ++ val
          ++ (" " : str) ++ kw0 ++ mid),
    (var ++ (" == " : str) ++ val ++ post).
  rewrite <- !app_assoc. reflexivity.
Qed.

End ShapeFacts.

(** X12.  The contradiction detector fires only on a line of at least 27
    characters in which the text [ELSE IF ] occurs, and text added before
    or after a line on which it fires never silences it. *)
Theorem detect_contradiction_bounds (line : str) :
  detect_contradiction line = true ->
  27 <= length line /\
  occurs ("ELSE IF " : str) line /\
  (forall before after,
      detect_contradiction (before ++ line ++ after) = true).
Proof.
  intros H. apply ShapeFacts.detect_contradiction_shape in H.
  split; [exact (ShapeFacts.shape_length H)|].
  split; [exact (ShapeFacts.shape_else_if H)|].
  intros a b. apply ShapeFacts.detect_contradiction_shape.
  apply ShapeFacts.shape_context. exact H.
Qed.

Lemma detect_contradiction_bounds_witness :
  27 <= length ("IF a == b DO cELSE IF a == b" : str).
Proof.
  apply (@detect_contradiction_bounds ("IF a == b DO cELSE IF a == b" : str)).
  vm_compute. reflexivity.
Defined.

Module ComparisonFacts.

Import ReFacts ScanFacts CharFacts IllogicalFacts.

Lemma word_not_space_quote (c : ascii) :
  implb (Py.is_word c) (negb (Py.is_space c) && negb (quote_char c)) = true.
Proof. all_chars c. Qed.

Lemma word_facts (c : ascii) :
  Py.is_word c = true -> Py.is_space c = false /\ quote_char c = false.
Proof.
  intros H. pose proof (word_not_space_quote c) as W. rewrite H in W.
  simpl in W. apply andb_prop in W as [A B].
  apply negb_true_iff in A, B. auto.
Qed.

(** The match at the start of a line <var> <op> <value>. *)
Lemma try_at_comparison (var op : str) (c : ascii) (v : str) :
  var <> [] -> forallb Py.is_word var = true ->
  In op comparison_ops ->
  Py.is_word c = true -> forallb word_or_space v = true ->
  try_at false illogical_pattern false None (comparison_line var op (c :: v))
  = Some (RMatch (comparison_line var op (c :: v))
            [(4, c :: v); (3, []); (2, op); (1, var)]).
Proof.
  intros Hvar Fvar Hop Hc Fv.
  destruct (word_facts _ Hc) as (Csp & Cq).
  unfold try_at, illogical_pattern, comparison_line.
  cbn [seqs].
  rewrite exec_seq, exec_grp.
  apply exec_plus_longest; [exact Hvar|exact Fvar|reflexivity|].
  cbn [prev rest caps]. rewrite (taken_app _ _ var) by reflexivity.
  rewrite exec_seq.
  apply (@exec_star_longest _ Py.is_space (" " : str)); [reflexivity| |].
  { destruct Hop as [<-|[<-|[<-|[<-|[]]]]]; reflexivity. }
  cbv beta. rewrite exec_seq, exec_grp, exec_ops by exact Hop.
  cbn [prev rest caps]. rewrite (taken_app _ _ op) by reflexivity.
  rewrite exec_seq.
  apply (@exec_star_longest _ Py.is_space (" " : str)); [reflexivity| |].
  { exact Csp. }
  cbv beta. rewrite exec_seq, exec_grp.
  rewrite exec_opt_skip by exact Cq.
  cbn [prev rest caps]. rewrite (taken_app _ _ []) by reflexivity.
  rewrite exec_seq, exec_grp.
  assert (Fval : forallb word_or_space (c :: v) = true).
  { cbn [forallb]. unfold word_or_space at 1. rewrite Hc. exact Fv. }
  apply exec_plus_all; [discriminate|exact Fval|].
  cbn [exec prev rest caps group Nat.eqb eat andb length].
  rewrite taken_all, Nat.sub_0_r, firstn_all. reflexivity.
Qed.

Lemma finditer_comparison (var op : str) (c : ascii) (v : str) :
  var <> [] -> forallb Py.is_word var = true ->
  In op comparison_ops ->
  Py.is_word c = true -> forallb word_or_space v = true ->
  finditer false illogical_pattern (comparison_line var op (c :: v))
  = [RMatch (comparison_line var op (c :: v))
       [(4, c :: v); (3, []); (2, op); (1, var)]].
Proof.
  intros Hvar Fvar Hop Hc Fv. apply finditer_whole.
  - unfold comparison_line. destruct var; [contradiction|discriminate].
  - reflexivity.
  - apply try_at_comparison; assumption.
  - apply try_at_illogical_end.
Qed.

(** A match stands in the line, and its operator with it. *)
Lemma finditer_operator (line : str) (m : rmatch) :
  In m (finditer false illogical_pattern line) ->
  exists op, In op comparison_ops /\ occurs op line.
Proof.
  intros H. apply finditer_In in H as (pre & s' & adv & -> & T).
  pose proof (try_at_illogical_shape _ _ _ T)
    as (tok & ws1 & op & ws2 & E & _ & _ & _ & Hop & _).
  apply try_at_sound in T as (st' & _ & -> & _).
  exists op. split; [exact Hop|]. rewrite E.
  exists (pre ++ tok ++ ws1),
    (ws2 ++ m_group m 3 ++ m_group m 4 ++ m_group m 3 ++ rest st').
  rewrite <- !app_assoc. reflexivity.
Qed.

End ComparisonFacts.

(** X13.  In a line <var> <op> <value> (single spaces, the value a run of
    word and whitespace characters that starts with a word character and
    ends the line) the illogical-comparison detector reports the value
    exactly when, once stripped, it is not made of digits: a bare number
    that ends the line is accepted, any other bare value is reported as an
    unquoted string. *)
Theorem detect_illogical_bare_value (var op : str) (c : ascii) (v : str) :
  var <> [] -> forallb Py.is_word var = true ->
  In op comparison_ops ->
  Py.is_word c = true -> forallb word_or_space v = true ->
  detect_illogical (comparison_line var op (c :: v))
  = if Py.isdigit (Py.strip (c :: v)) then []
    else [("Comparing unquoted value " : str) ++ (c :: v)
            ++ (" as string" : str)].
Proof.
  intros Hvar Fvar Hop Hc Fv. unfold detect_illogical.
  rewrite ComparisonFacts.finditer_comparison by assumption.
  cbn [flat_map]. unfold illogical_message, m_group.
  cbn [m_caps group Nat.eqb nonempty].
  destruct (Py.isdigit (Py.strip (c :: v))); reflexivity.
Qed.

Lemma detect_illogical_bare_value_witness :
  detect_illogical ("user_id > 100" : str) = [].
Proof.
  apply (@detect_illogical_bare_value ("user_id" : str) (">" : str)
           "1"%char ("00" : str)).
  - discriminate.
  - vm_compute. reflexivity.
  - vm_compute. auto.
  - vm_compute. reflexivity.
  - vm_compute. reflexivity.
Defined.

(** X14.  The illogical-comparison detector reports nothing for a line in
    which none of the operators ==, !=, > and < occurs. *)
Theorem detect_illogical_needs_operator (line : str) :
  detect_illogical line <> [] ->
  exists op, In op comparison_ops /\ occurs op line.
Proof.
  unfold detect_illogical. intros H.
  destruct (flat_map illogical_message
              (finditer false illogical_pattern line)) as [|msg l] eqn:E;
    [contradiction|].
  assert (Hin : In msg (flat_map illogical_message
                          (finditer false illogical_pattern line)))
    by (rewrite E; left; reflexivity).
  apply in_flat_map in Hin as (m & Hm & _).
  exact (ComparisonFacts.finditer_operator _ _ Hm).
Qed.

Lemma detect_illogical_needs_operator_witness :
  exists op, In op comparison_ops /\ occurs op example3.
Proof.
  apply detect_illogical_needs_operator. vm_compute. discriminate.
Defined.

Module SymbolFacts.

Import ReFacts ScanFacts CharFacts.

Lemma scan_no_match (ic : bool) (r : regex) :
  forall s p gap,
    (forall pre s', s = pre ++ s' ->
                    try_at ic r false (last_char pre p) s' = None) ->
    scan ic r 0 p gap s = ([], rev gap ++ s).
Proof.
  induction s as [|x s IH]; intros p gap H.
  - rewrite scan_end by (apply (H [] []); reflexivity).
    rewrite app_nil_r. reflexivity.
  - rewrite scan_miss by (apply (H [] (x :: s)); reflexivity).
    rewrite (IH (Some x) []).
    + unfold add_gap. simpl. rewrite <- app_assoc. reflexivity.
    + intros pre s' E. apply (H (x :: pre) s'). rewrite E. reflexivity.
Qed.

Lemma sub_no_match (ic : bool) (r : regex) (repl : rmatch -> str) (s : str) :
  (forall pre s', s = pre ++ s' ->
                  try_at ic r false (last_char pre None) s' = None) ->
  sub ic r repl s = s.
Proof.
  intros H. unfold sub, scan_all. rewrite scan_no_match by exact H.
  reflexivity.
Qed.

Lemma finditer_no_match (ic : bool) (r : regex) (s : str) :
  (forall pre s', s = pre ++ s' ->
                  try_at ic r false (last_char pre None) s' = None) ->
  finditer ic r s = [].
Proof.
  intros H. unfold finditer, scan_all. rewrite scan_no_match by exact H.
  reflexivity.
Qed.

Lemma letterish_lower (c : ascii) : letterish (Py.lower_c c) = letterish c.
Proof. all_chars c. Qed.

Lemma chr_eq_letterish (ic : bool) (c x : ascii) :
  chr_eq ic c x = true -> letterish c = true -> letterish x = true.
Proof.
  unfold chr_eq. destruct ic; intros E H; apply Ascii.eqb_eq in E.
  - rewrite <- letterish_lower, <- E, letterish_lower. exact H.
  - subst. exact H.
Qed.

Lemma wants_chr (ic : bool) (c : ascii) :
  letterish c = true -> wants_letter ic (Chr c).
Proof.
  intros H st st' (x & s' & E & C & _). exists x. rewrite E.
  split; [left; reflexivity|]. exact (chr_eq_letterish _ _ _ C H).
Qed.

Lemma wants_cls (p : ascii -> bool) :
  (forall x, p x = true -> letterish x = true) -> wants_letter false (Cls p).
Proof.
  intros H st st' (x & s' & E & C & _). exists x. rewrite E.
  split; [left; reflexivity|]. rewrite cls_ok_exact in C. auto.
Qed.

Lemma wants_seq_l (ic : bool) (r1 r2 : regex) :
  wants_letter ic r1 -> wants_letter ic (Seq r1 r2).
Proof. intros H st st' (st1 & D1 & _). exact (H _ _ D1). Qed.

Lemma wants_seq_r (ic : bool) (r1 r2 : regex) :
  wants_letter ic r2 -> wants_letter ic (Seq r1 r2).
Proof.
  intros H st st' (st1 & D1 & D2). destruct (H _ _ D2) as (x & Hx & L).
  destruct (den_rest _ _ _ _ D1) as (t & E & _). exists x. rewrite E.
  split; [apply in_or_app; right; exact Hx|exact L].
Qed.

Lemma wants_alt (ic : bool) (r1 r2 : regex) :
  wants_letter ic r1 -> wants_letter ic r2 -> wants_letter ic (Alt r1 r2).
Proof. intros H1 H2 st st' [D|D]; eauto. Qed.

Lemma wants_grp (ic : bool) (n : nat) (r : regex) :
  wants_letter ic r -> wants_letter ic (Grp n r).
Proof. intros H st st' (st1 & D & _). exact (H _ _ D). Qed.

Lemma wants_lit (ic : bool) (t : str) :
  starts_letterish t = true -> wants_letter ic (lit t).
Proof.
  destruct t as [|c [|c' t]]; simpl; intros H; [discriminate| |].
  - apply wants_chr, H.
  - apply wants_seq_l, wants_chr, H.
Qed.

Lemma wants_alts_lit (ic : bool) (words : list str) :
  words <> [] -> forallb starts_letterish words = true ->
  wants_letter ic (alts (map lit words)).
Proof.
  induction words as [|w words IH]; [contradiction|]. intros _ H.
  simpl in H. apply andb_prop in H as [Hw H].
  destruct words as [|w' words'].
  - apply wants_lit, Hw.
  - change (alts (map lit (w :: w' :: words')))
      with (Alt (lit w) (alts (map lit (w' :: words')))).
    apply wants_alt; [apply wants_lit, Hw|]. apply IH; [discriminate|exact H].
Qed.

Lemma wants_kw (ic : bool) (words : list str) :
  words <> [] -> forallb starts_letterish words = true ->
  wants_letter ic (kw words).
Proof.
  intros N H. unfold kw. cbn [seqs].
  apply wants_seq_r, wants_seq_l, wants_grp, wants_alts_lit; assumption.
Qed.

Lemma wants_whole_word (ic : bool) (t : str) :
  starts_letterish t = true -> wants_letter ic (whole_word t).
Proof.
  intros H. unfold whole_word. cbn [seqs].
  apply wants_seq_r, wants_seq_l, wants_lit, H.
Qed.

(** On a line without letters and underscores such a pattern finds
    nothing. *)
Lemma wants_no_match (ic : bool) (r : regex) (s : str) :
  wants_letter ic r -> symbols_only s = true ->
  forall pre s', s = pre ++ s' ->
                 try_at ic r false (last_char pre None) s' = None.
Proof.
  intros W S pre s' ->.
  destruct (try_at ic r false (last_char pre None) s') as [m|] eqn:T; auto.
  apply try_at_sound in T as (st' & D & _).
  destruct (W _ _ D) as (x & Hx & L). simpl in Hx.
  unfold symbols_only in S. rewrite forallb_forall in S.
  specialize (S x (in_or_app _ _ _ (or_intror Hx))).
  rewrite L in S. discriminate.
Qed.

Lemma fold_left_fixed (A B : Type) (f : A -> B -> A) (l : list B) (a : A) :
  (forall x, In x l -> f a x = a) -> fold_left f l a = a.
Proof.
  induction l as [|x l IH]; simpl; intros H; auto.
  rewrite (H x) by (left; reflexivity). apply IH. intros y Hy. apply H.
  right. exact Hy.
Qed.

Lemma ident_start_letterish (x : ascii) :
  ident_start x = true -> letterish x = true.
Proof. destruct x as [[] [] [] [] [] [] [] []]; vm_compute; auto. Qed.

Lemma keywords_want_letters :
  Forall (fun pr : regex * str => wants_letter true (fst pr)) LOGIC_KEYWORDS.
Proof.
  unfold LOGIC_KEYWORDS.
  repeat (apply Forall_cons;
          [apply wants_kw; [discriminate|vm_compute; reflexivity]|]).
  apply Forall_nil.
Qed.

Lemma aliases_start_with_letters :
  forallb (fun e : str * list str => forallb starts_letterish (snd e))
    VAR_SYNONYMS = true.
Proof. vm_compute. reflexivity. Qed.

Section Symbols.

Variable line : str.
Hypothesis S : symbols_only line = true.

Lemma sub_symbols (ic : bool) (r : regex) (repl : rmatch -> str) :
  wants_letter ic r -> sub ic r repl line = line.
Proof. intros W. apply sub_no_match, wants_no_match; assumption. Qed.

Lemma finditer_symbols (ic : bool) (r : regex) :
  wants_letter ic r -> finditer ic r line = [].
Proof. intros W. apply finditer_no_match, wants_no_match; assumption. Qed.

Lemma normalize_keywords_symbols : normalize_keywords line = line.
Proof.
  unfold normalize_keywords.
  rewrite sub_symbols by (apply wants_whole_word; reflexivity).
  apply fold_left_fixed. intros pr Hpr. apply sub_symbols.
  assert (F := keywords_want_letters). rewrite Forall_forall in F.
  exact (F pr Hpr).
Qed.

Lemma sweep_entry_symbols (e : str * list str) :
  In e VAR_SYNONYMS -> sweep_entry line e = line.
Proof.
  intros He. unfold sweep_entry. apply fold_left_fixed. intros s Hs.
  destruct (Py.eqb s (fst e)); [reflexivity|].
  apply sub_symbols, wants_whole_word.
  assert (F := aliases_start_with_letters). rewrite forallb_forall in F.
  specialize (F e He). rewrite forallb_forall in F. exact (F s Hs).
Qed.

Lemma normalize_variables_symbols : normalize_variables line = line.
Proof.
  unfold normalize_variables, findall2.
  rewrite finditer_symbols.
  - cbn [map fold_left]. apply fold_left_fixed, sweep_entry_symbols.
  - unfold var_pattern. cbn [seqs].
    apply wants_seq_l, wants_grp, wants_seq_l, wants_cls,
      ident_start_letterish.
Qed.

Lemma normalize_literals_symbols : normalize_literals line = line.
Proof.
  unfold normalize_literals.
  rewrite !sub_symbols; [reflexivity| |];
    cbn [seqs]; apply wants_seq_r, wants_seq_r, wants_lit; reflexivity.
Qed.

Lemma normalize_symbols : normalize line = line.
Proof.
  unfold normalize.
  rewrite normalize_keywords_symbols, normalize_variables_symbols.
  apply normalize_literals_symbols.
Qed.

Lemma occurs_symbols (t : str) :
  starts_letterish t = true -> ~ occurs t line.
Proof.
  intros L (pre & post & E). destruct t as [|c t]; [discriminate|].
  simpl in L. unfold symbols_only in S. rewrite forallb_forall in S.
  specialize (S c). rewrite L in S. simpl in S.
  assert (true = false -> False) by discriminate.
  apply H. symmetry. apply S. rewrite E. apply in_or_app. right. left.
  reflexivity.
Qed.

Lemma detect_redundancy_symbols : detect_redundancy line = [].
Proof.
  destruct (detect_redundancy line) as [|r0 rs] eqn:E; [reflexivity|].
  destruct (@RedundancyFacts.detect_redundancy_connective line) as [O|O].
  - rewrite E. discriminate.
  - apply occurs_symbols in O; [contradiction|reflexivity].
  - apply occurs_symbols in O; [contradiction|reflexivity].
Qed.

Lemma detect_contradiction_symbols : detect_contradiction line = false.
Proof.
  destruct (detect_contradiction line) eqn:E; [|reflexivity].
  apply ShapeFacts.detect_contradiction_shape in E.
  apply ShapeFacts.shape_else_if, occurs_symbols in E;
    [contradiction|reflexivity].
Qed.

Lemma detect_typos_symbols : detect_typos line = [].
Proof.
  unfold detect_typos, findall. rewrite finditer_symbols; [reflexivity|].
  unfold token_pattern. cbn [seqs].
  apply wants_seq_r, wants_seq_l, wants_cls, ident_start_letterish.
Qed.

End Symbols.

Lemma strip_symbols (line : str) :
  symbols_only line = true -> symbols_only (Py.strip line) = true.
Proof.
  unfold symbols_only, Py.strip. intros H.
  destruct (PyFacts.lstrip_split line) as (ws & E & _).
  destruct (PyFacts.rstrip_split (Py.lstrip line)) as (ws' & E' & _).
  rewrite E, E' in H. rewrite !forallb_app in H.
  apply andb_prop in H as [_ H]. apply andb_prop in H as [H _]. exact H.
Qed.

End SymbolFacts.

(** X15. A line without letters and underscores is left as it is by the
    three normalization passes, and the redundancy, contradiction and typo
    detectors find nothing in it: it is printed stripped, unless the
    comparison detector reports it. *)
Theorem symbol_line_passes_unchanged (line : str) :
  symbols_only line = true ->
  normalize line = line /\
  detect_redundancy line = [] /\
  detect_contradiction line = false /\
  detect_typos line = [] /\
  process_line line =
    match detect_illogical (Py.strip line) with
    | [] => [Py.strip line]
    | _ :: _ =>
        [("FLAG: Illogical comparison: " : str)
           ++ Py.join (", " : str) (detect_illogical (Py.strip line))
           ++ (" in line: " : str) ++ Py.strip line]
    end.
Proof.
  intros H.
  split; [exact (@SymbolFacts.normalize_symbols _ H)|].
  split; [exact (@SymbolFacts.detect_redundancy_symbols _ H)|].
  split; [exact (@SymbolFacts.detect_contradiction_symbols _ H)|].
  split; [exact (@SymbolFacts.detect_typos_symbols _ H)|].
  apply SymbolFacts.strip_symbols in H.
  unfold process_line. cbv zeta.
  rewrite (@SymbolFacts.normalize_symbols _ H),
    (@SymbolFacts.detect_redundancy_symbols _ H),
    (@SymbolFacts.detect_contradiction_symbols _ H),
    (@SymbolFacts.detect_typos_symbols _ H).
  destruct (detect_illogical (Py.strip line)); reflexivity.
Qed.

Lemma symbol_line_passes_unchanged_witness :
  process_line (" 1 == 2 3 " : str) =
  [("FLAG: Illogical comparison: Comparing unquoted value 2 3 as string"
    : str) ++ (" in line: 1 == 2 3" : str)].
Proof.
  destruct (@symbol_line_passes_unchanged (" 1 == 2 3 " : str))
    as (_ & _ & _ & _ & E); [vm_compute; reflexivity|].
  rewrite E. vm_compute. reflexivity.
Defined.

Module KeepFacts.

Import ReFacts ScanFacts CharFacts.

Lemma all_ascii_In (x : ascii) : In x all_ascii.
Proof.
  assert (H : existsb (Ascii.eqb x) all_ascii = true) by all_chars x.
  apply existsb_exists in H as (y & Hy & E). apply Ascii.eqb_eq in E.
  subst. exact Hy.
Qed.

Lemma all_in_spec (f ok : ascii -> bool) :
  all_in f ok = true -> forall x, f x = true -> ok x = true.
Proof.
  unfold all_in. rewrite forallb_forall. intros H x Hf.
  specialize (H x (all_ascii_In x)). rewrite Hf in H. exact H.
Qed.

(** What a pattern within [ok] reads is a text of [ok]. *)
Lemma within_reads (ic : bool) (ok : ascii -> bool) (r : regex) :
  within ic ok r = true ->
  forall st st', den ic r st st' ->
    exists t, rest st = t ++ rest st' /\ forallb ok t = true.
Proof.
  induction r as [|c|p|r1 IH1 r2 IH2|r1 IH1 r2 IH2|g p|n r1 IH1|n|];
    cbn [within]; intros W st st' D; cbn [den] in D.
  - subst. exists []. auto.
  - destruct D as (x & s' & E & C & ->). exists [x]. cbn [rest forallb].
    rewrite (all_in_spec _ _ W _ C). auto.
  - destruct D as (x & s' & E & C & ->). exists [x]. cbn [rest forallb].
    rewrite (all_in_spec _ _ W _ C). auto.
  - apply andb_prop in W as [W1 W2]. destruct D as (st1 & D1 & D2).
    destruct (IH1 W1 _ _ D1) as (t1 & E1 & F1).
    destruct (IH2 W2 _ _ D2) as (t2 & E2 & F2).
    exists (t1 ++ t2). rewrite <- app_assoc, <- E2, forallb_app, F1, F2. auto.
  - apply andb_prop in W as [W1 W2]. destruct D as [D|D]; eauto.
  - destruct D as (run & s' & E & F & ->). exists run. cbn [rest].
    split; [exact E|]. rewrite forallb_forall in *. intros x Hx.
    exact (all_in_spec _ _ W _ (F x Hx)).
  - destruct D as (st1 & D1 & ->). destruct (IH1 W _ _ D1) as (t & E & F).
    exists t. auto.
  - discriminate.
  - destruct D as [_ ->]. exists []. auto.
Qed.

Lemma try_at_within (ic : bool) (ok : ascii -> bool) (r : regex) (adv : bool)
    (p : option ascii) (s : str) (m : rmatch) :
  within ic ok r = true -> try_at ic r adv p s = Some m ->
  forallb ok (m_text m) = true.
Proof.
  intros W T. apply try_at_sound in T as (st' & D & E & _).
  destruct (within_reads _ _ _ W _ _ D) as (t & E' & F). cbn [rest] in E'.
  rewrite E' in E. apply app_inv_tail in E. subst. exact F.
Qed.

Section Partition.

Variable ic : bool.
Variable r : regex.

(** A match found under the must-advance flag is not empty. *)
Lemma try_at_adv (p : option ascii) (s : str) (m : rmatch) :
  try_at ic r true p s = Some m -> m_text m <> [].
Proof.
  unfold try_at. intros H. apply exec_sound in H as (st' & D & H).
  destruct (den_rest _ _ _ _ D) as (t & E & _). cbn [rest] in E.
  rewrite E in H. rewrite firstn_app_length in H.
  rewrite length_app, Nat.add_sub in H.
  destruct t as [|x t]; cbn [length Nat.eqb andb] in H; [discriminate|].
  injection H as <-. discriminate.
Qed.

Lemma render_cons (repl : rmatch -> str) (g : str) (m : rmatch)
    (ms : list (str * rmatch)) (tl : str) :
  render repl ((g, m) :: ms, tl) = g ++ repl m ++ render repl (ms, tl).
Proof. unfold render. simpl. rewrite <- !app_assoc. reflexivity. Qed.

(** The scan after a non-empty match at the cursor. *)
Lemma after_partition (adv : bool) (p : option ascii) (s : str) (m : rmatch) :
  (forall skip p' gap s', length s' < length s ->
     render m_text (scan ic r skip p' gap s') = rev gap ++ skipn skip s') ->
  try_at ic r adv p s = Some m -> m_text m <> [] ->
  m_text m ++
  render m_text
    match s with
    | x :: s' => scan ic r (length (m_text m) - 1) (Some x) [] s'
    | [] => ([], [])
    end = s.
Proof.
  intros IH T N. apply try_at_sound in T as (st' & _ & E & _).
  destruct (m_text m) as [|y t]; [contradiction|].
  destruct s as [|x s']; [discriminate|].
  injection E as <- E. rewrite IH by (simpl; lia).
  replace (length (x :: t) - 1) with (length t) by (simpl; lia).
  cbn [rev app]. rewrite E at 1.
  rewrite skipn_app, skipn_all, Nat.sub_diag. cbn [skipn app].
  rewrite <- E. reflexivity.
Qed.

Lemma scan_partition_nil (skip : nat) (p : option ascii) (gap : str) :
  render m_text (scan ic r skip p gap []) = rev gap.
Proof.
  destruct skip; cbn [scan]; [|reflexivity].
  destruct (try_at ic r false p []) as [m|] eqn:T; [|reflexivity].
  apply try_at_sound in T as T0. destruct T0 as (st' & _ & E & _).
  destruct (m_text m) eqn:M; [|discriminate].
  destruct (try_at ic r true p []) as [m'|] eqn:T'.
  - apply try_at_adv in T' as N.
    apply try_at_sound in T' as (st2 & _ & E' & _).
    destruct (m_text m'); [contradiction|discriminate].
  - unfold render. cbn [fst snd map concat]. rewrite M, !app_nil_r.
    reflexivity.
Qed.

(** The matches and the text between them make up the scanned text. *)
Lemma scan_partition :
  forall n s skip p gap, length s <= n ->
    render m_text (scan ic r skip p gap s) = rev gap ++ skipn skip s.
Proof.
  induction n as [|n IH]; intros s skip p gap Hn.
  - destruct s; [|simpl in Hn; lia].
    rewrite scan_partition_nil, skipn_nil, app_nil_r. reflexivity.
  - assert (IH' : forall skip p' gap s', length s' < length s ->
              render m_text (scan ic r skip p' gap s')
              = rev gap ++ skipn skip s')
      by (intros; apply IH; lia).
    destruct s as [|x s'].
    { rewrite scan_partition_nil, skipn_nil, app_nil_r. reflexivity. }
    destruct skip as [|k].
    + cbn [skipn scan].
      destruct (try_at ic r false p (x :: s')) as [m|] eqn:T.
      * destruct (m_text m) as [|y t] eqn:M.
        -- destruct (try_at ic r true p (x :: s')) as [m'|] eqn:T'.
           ++ assert (A := @after_partition true p (x :: s') m' IH' T'
                            (@try_at_adv p (x :: s') m' T')).
              cbn iota in A.
              destruct (scan ic r (length (m_text m') - 1) (Some x) [] s')
                as [ms tl].
              rewrite !render_cons, M. cbn [app]. rewrite A. reflexivity.
           ++ specialize (IH' 0 (Some x) [x] s').
              destruct (scan ic r 0 (Some x) [x] s') as [ms tl].
              rewrite render_cons, M, IH' by (simpl; lia). reflexivity.
        -- assert (N : m_text m <> []) by (rewrite M; discriminate).
           assert (A := @after_partition false p (x :: s') m IH' T N). cbn iota in A.
           rewrite M in A.
           destruct (scan ic r (length (y :: t) - 1) (Some x) [] s')
             as [ms tl].
           rewrite render_cons, M, A. reflexivity.
      * rewrite IH' by (simpl; lia). cbn [rev skipn].
        rewrite <- app_assoc. reflexivity.
    + cbn [scan skipn]. apply IH'. simpl. lia.
Qed.

Variable repl : rmatch -> str.
Variable f : ascii -> bool.

Lemma render_filter (out : list (str * rmatch) * str) :
  (forall g m, In (g, m) (fst out) ->
               filter f (repl m) = filter f (m_text m)) ->
  filter f (render repl out) = filter f (render m_text out).
Proof.
  destruct out as [ms tl]. cbn [fst]. induction ms as [|[g m] ms IH];
    intros H; [reflexivity|].
  rewrite !render_cons, !filter_app, (H g m) by (left; reflexivity).
  rewrite IH; [reflexivity|]. intros g' m' Hm. apply (H g' m'). right.
  exact Hm.
Qed.

(** A substitution whose replacements keep the characters of the set [f]
    of what they replace keeps those of the whole text. *)
Lemma sub_filter (s : str) :
  (forall adv p s' m, try_at ic r adv p s' = Some m ->
                      filter f (repl m) = filter f (m_text m)) ->
  filter f (sub ic r repl s) = filter f s.
Proof.
  intros H.
  assert (E : sub ic r repl s = render repl (scan ic r 0 None [] s)).
  { unfold sub, scan_all, render. destruct (scan ic r 0 None [] s).
    reflexivity. }
  rewrite E, render_filter.
  - rewrite (@scan_partition (length s)) by auto. reflexivity.
  - intros g m Hm. apply scan_In in Hm as (pre & s' & adv & _ & T).
    exact (H _ _ _ _ T).
Qed.

End Partition.

Lemma filter_kept_fragile (t : str) :
  forallb fragile t = true -> filter kept t = [].
Proof.
  induction t as [|c t IH]; simpl; intros H; [reflexivity|].
  apply andb_prop in H as [Hc H]. unfold kept at 1. rewrite Hc. simpl. auto.
Qed.

(** A constant of fragile characters put for texts of fragile
    characters. *)
Lemma sub_const_kept (ic : bool) (r : regex) (c s : str) :
  within ic fragile r = true -> forallb fragile c = true ->
  filter kept (sub ic r (const c) s) = filter kept s.
Proof.
  intros W C. apply sub_filter. intros adv p s' m T. unfold const.
  rewrite !filter_kept_fragile; [reflexivity| |exact C].
  exact (try_at_within _ _ _ _ _ _ W T).
Qed.

Lemma fold_left_kept (B : Type) (g : str -> B -> str) (l : list B) (a : str) :
  (forall a' x, In x l -> filter kept (g a' x) = filter kept a') ->
  filter kept (fold_left g l a) = filter kept a.
Proof.
  revert a. induction l as [|x l IH]; simpl; intros a H; [reflexivity|].
  rewrite IH by (intros; apply H; right; assumption).
  apply H. left. reflexivity.
Qed.

(** ** The keyword pass *)

Lemma keywords_fragile :
  forallb (fun pr : regex * str =>
             within true fragile (fst pr) && forallb fragile (snd pr))
    LOGIC_KEYWORDS = true.
Proof. vm_compute. reflexivity. Qed.

Lemma normalize_keywords_kept (line : str) :
  filter kept (normalize_keywords line) = filter kept line.
Proof.
  unfold normalize_keywords. rewrite fold_left_kept.
  - apply sub_const_kept; vm_compute; reflexivity.
  - intros a pr Hpr. assert (F := keywords_fragile).
    rewrite forallb_forall in F. specialize (F pr Hpr).
    apply andb_prop in F as [F1 F2]. apply sub_const_kept; assumption.
Qed.

(** ** The literal pass *)

Lemma normalize_literals_kept (line : str) :
  filter kept (normalize_literals line) = filter kept line.
Proof.
  unfold normalize_literals.
  rewrite !sub_const_kept; try reflexivity; vm_compute; reflexivity.
Qed.

(** ** The variable pass *)

Lemma kept_lower (c : ascii) :
  kept (Py.lower_c c) = kept c /\ (kept c = true -> Py.lower_c c = c).
Proof.
  destruct c as [[] [] [] [] [] [] [] []]; vm_compute;
    (split; [reflexivity|intros H; first [reflexivity|discriminate H]]).
Qed.

Lemma lower_kept (t : str) : filter kept (Py.lower t) = filter kept t.
Proof.
  induction t as [|c t IH]; [reflexivity|]. cbn [Py.lower map filter].
  destruct (kept_lower c) as [E1 E2]. rewrite E1.
  destruct (kept c) eqn:K; [rewrite E2 by reflexivity; f_equal|]; exact IH.
Qed.

Lemma sep_fragile (c : ascii) : space_or_hyphen c = true -> kept c = false.
Proof.
  destruct c as [[] [] [] [] [] [] [] []]; vm_compute;
    intros H; first [reflexivity|discriminate H].
Qed.

Lemma collapse_kept (b : bool) (t : str) :
  filter kept (collapse_runs b t) = filter kept t.
Proof.
  revert b. induction t as [|c t IH]; intros b; [reflexivity|].
  cbn [collapse_runs filter]. destruct (space_or_hyphen c) eqn:S.
  - rewrite (sep_fragile _ S). destruct b; [apply IH|].
    cbn [filter]. change (kept Py.underscore) with false. apply IH.
  - cbn [filter]. rewrite IH. reflexivity.
Qed.

Lemma insert_kept (t : str) :
  filter kept (insert_underscores t) = filter kept t.
Proof.
  induction t as [|x t IH]; [reflexivity|].
  cbn [insert_underscores]. destruct t as [|y t]; [reflexivity|].
  destruct (lower_or_digit x && Py.is_upper y).
  - cbn [filter] in *. change (kept Py.underscore) with false. rewrite IH.
    reflexivity.
  - cbn [filter] in *. rewrite IH. reflexivity.
Qed.

Lemma snake_kept (t : str) : filter kept (to_snake_case t) = filter kept t.
Proof.
  rewrite SnakeFacts.to_snake_case_fallback. unfold case_style_fallback.
  rewrite lower_kept, collapse_kept. apply insert_kept.
Qed.

Lemma space_fragile (t : str) :
  forallb Py.is_space t = true -> filter kept t = [].
Proof.
  intros H. apply filter_kept_fragile. rewrite forallb_forall in *.
  intros c Hc. specialize (H c Hc). unfold fragile. rewrite H.
  rewrite !orb_true_r. reflexivity.
Qed.

Lemma strip_kept (t : str) : filter kept (Py.strip t) = filter kept t.
Proof.
  unfold Py.strip.
  destruct (PyFacts.lstrip_split t) as (ws & E & F).
  destruct (PyFacts.rstrip_split (Py.lstrip t)) as (ws' & E' & F').
  rewrite E at 2. rewrite E' at 2.
  rewrite !filter_app, (space_fragile _ F), (space_fragile _ F').
  rewrite app_nil_r. reflexivity.
Qed.

Lemma remove_absent (q : ascii) (t : str) :
  forallb (fun c => negb (Ascii.eqb c q)) t = true -> Py.remove q t = t.
Proof.
  unfold Py.remove. induction t as [|c t IH]; simpl; intros H; [reflexivity|].
  apply andb_prop in H as [Hc H]. rewrite Hc, IH by exact H. reflexivity.
Qed.

Lemma unquoted_parts (t : str) :
  unquoted t = true ->
  forallb (fun c => negb (Ascii.eqb c Py.squote)) t = true /\
  forallb (fun c => negb (Ascii.eqb c Py.dquote)) t = true.
Proof.
  unfold unquoted, quote_char. rewrite !forallb_forall. intros H.
  split; intros c Hc; specialize (H c Hc); apply negb_true_iff in H;
    apply orb_false_iff in H as [H1 H2]; apply negb_true_iff; assumption.
Qed.

Lemma unquoted_strip (t : str) :
  unquoted t = true -> unquoted (Py.strip t) = true.
Proof.
  unfold unquoted, Py.strip. intros H.
  destruct (PyFacts.lstrip_split t) as (ws & E & _).
  destruct (PyFacts.rstrip_split (Py.lstrip t)) as (ws' & E' & _).
  rewrite E, E' in H. rewrite !forallb_app in H.
  apply andb_prop in H as [_ H]. apply andb_prop in H as [H _]. exact H.
Qed.

Lemma clean_kept (var : str) :
  unquoted var = true -> filter kept (clean var) = filter kept var.
Proof.
  intros U. unfold clean.
  destruct (unquoted_parts _ (unquoted_strip _ U)) as [Q1 Q2].
  rewrite (remove_absent _ _ Q1), (remove_absent _ _ Q2). apply strip_kept.
Qed.

Lemma synonyms_fragile :
  forallb (fun e : str * list str =>
             forallb fragile (fst e) && forallb (forallb fragile) (snd e)
             && forallb (fun s => within true fragile (whole_word s)) (snd e))
    VAR_SYNONYMS = true.
Proof. vm_compute. reflexivity. Qed.

Lemma synonyms_entry (e : str * list str) :
  In e VAR_SYNONYMS ->
  forallb fragile (fst e) = true /\
  (forall a, In a (snd e) ->
             forallb fragile a = true /\
             within true fragile (whole_word a) = true).
Proof.
  intros He. assert (F := synonyms_fragile). rewrite forallb_forall in F.
  specialize (F e He). apply andb_prop in F as [F F3].
  apply andb_prop in F as [F1 F2]. split; [exact F1|]. intros a Ha.
  rewrite forallb_forall in F2, F3. auto.
Qed.

(** The name put for an operand without quote characters keeps its
    characters outside the fragile ones: its digits. *)
Lemma normalize_var_kept (var : str) :
  unquoted var = true ->
  filter kept (normalize_var var) = filter kept var.
Proof.
  intros U. unfold normalize_var. cbv zeta.
  destruct (find (entry_matches (clean var) (to_snake_case (clean var)))
              VAR_SYNONYMS) as [[canon syns]|] eqn:F.
  - apply find_some in F as [He M].
    destruct (@synonyms_entry _ He) as [Fc Fa]. cbn [fst snd] in Fc, Fa.
    rewrite (filter_kept_fragile _ Fc). symmetry.
    rewrite <- (clean_kept _ U).
    unfold entry_matches in M. cbn [snd] in M.
    apply orb_prop in M as [M|M]; [apply orb_prop in M as [M|M]|].
    + apply BasicFacts.mem_In in M. apply filter_kept_fragile, Fa, M.
    + apply BasicFacts.mem_In in M. rewrite <- snake_kept.
      apply filter_kept_fragile, Fa, M.
    + apply BasicFacts.mem_In in M. apply in_map_iff in M as (a & E & Ha).
      rewrite <- lower_kept, <- E, lower_kept.
      apply filter_kept_fragile, Fa, Ha.
  - rewrite snake_kept. apply clean_kept, U.
Qed.

Lemma operand_unquoted (c : ascii) :
  operand_char c = true -> negb (quote_char c) = true.
Proof.
  destruct c as [[] [] [] [] [] [] [] []]; vm_compute;
    intros H; first [reflexivity|discriminate H].
Qed.

Lemma ident_start_operand (c : ascii) :
  ident_start c = true -> operand_char c = true.
Proof.
  destruct c as [[] [] [] [] [] [] [] []]; vm_compute;
    intros H; first [reflexivity|discriminate H].
Qed.

(** The first group of a match of the operand pattern. *)
Lemma var_pattern_operand (line orig op : str) :
  In (orig, op) (findall2 false var_pattern line) ->
  forallb operand_char orig = true.
Proof.
  unfold findall2. intros H. apply in_map_iff in H as (m & E & H).
  injection E as <- _.
  apply finditer_In in H as (pre & s' & adv & _ & T).
  apply try_at_sound in T as (st' & D & _ & C).
  unfold var_pattern in D. cbn [seqs alts den] in D.
  destruct D as (st1 & (st0 & (stc & (x & s1 & E1 & C1 & ->)
                               & (run & s2 & E2 & F2 & ->)) & ->)
                 & st2 & (ws & s3 & E3 & F3 & ->) & st3 & D3 & ->).
  cbn [rest prev caps] in *.
  assert (K : caps st3 = [(1, x :: run)]).
  { subst s1.
    rewrite (@taken_app (MState (last_char pre None) s' [])
               (MState (last_char run (Some x)) s2 []) (x :: run))
      in D3 by exact E1.
    repeat (destruct D3 as [D3|D3];
            [apply den_lit in D3 as (? & _ & ->); reflexivity|]).
    apply den_lit in D3 as (? & _ & ->). reflexivity. }
  unfold m_group. rewrite C. cbn [caps]. rewrite K. cbn [group Nat.eqb].
  cbn [forallb]. rewrite cls_ok_exact in C1.
  rewrite (ident_start_operand _ C1). rewrite forallb_cls_ok_exact in F2.
  exact F2.
Qed.

Lemma rename_operand_kept (line orig op : str) :
  forallb operand_char orig = true ->
  filter kept (rename_operand line (orig, op)) = filter kept line.
Proof.
  intros O. unfold rename_operand. cbn [fst]. cbv zeta.
  destruct (Py.eqb orig (normalize_var orig)); [reflexivity|].
  apply sub_filter. intros adv p s' m T. unfold const.
  apply try_at_sound in T as (st' & D & E & _).
  apply RedundancyFacts.den_whole_word in D. cbn [rest] in D.
  rewrite D in E. apply app_inv_tail in E. rewrite <- E.
  apply normalize_var_kept. unfold unquoted. rewrite forallb_forall in *.
  intros c Hc. apply operand_unquoted, O, Hc.
Qed.

Lemma sweep_entry_kept (line : str) (e : str * list str) :
  In e VAR_SYNONYMS ->
  filter kept (sweep_entry line e) = filter kept line.
Proof.
  intros He. unfold sweep_entry. apply fold_left_kept. intros l s Hs.
  destruct (Py.eqb s (fst e)); [reflexivity|].
  destruct (@synonyms_entry _ He) as [Fc Fa]. destruct (Fa s Hs) as [_ W].
  apply sub_const_kept; assumption.
Qed.

Lemma normalize_variables_kept (line : str) :
  filter kept (normalize_variables line) = filter kept line.
Proof.
  unfold normalize_variables. cbv zeta.
  rewrite fold_left_kept by (intros; apply sweep_entry_kept; assumption).
  apply fold_left_kept. intros l [orig op] Hm.
  apply rename_operand_kept. exact (var_pattern_operand _ _ _ Hm).
Qed.

Lemma digit_kept (c : ascii) : Py.is_digit c = true -> kept c = true.
Proof.
  destruct c as [[] [] [] [] [] [] [] []]; vm_compute;
    intros H; first [reflexivity|discriminate H].
Qed.

Lemma filter_digit_kept (t : str) :
  filter Py.is_digit (filter kept t) = filter Py.is_digit t.
Proof.
  induction t as [|c t IH]; [reflexivity|]. cbn [filter].
  destruct (Py.is_digit c) eqn:Dg.
  - rewrite (digit_kept _ Dg). cbn [filter]. rewrite Dg, IH. reflexivity.
  - destruct (kept c); cbn [filter]; rewrite ?Dg; exact IH.
Qed.

End KeepFacts.

(** X16. Normalization touches letters, whitespace and the five characters
    _ - = < and > only: every other character of the line (the digits, the
    quotes, the brackets and the rest of the punctuation) is in the
    normalized line, in the same order, and nothing else of that kind is
    added.  In particular the digits of a line are never changed. *)
Theorem normalize_keeps_other_characters (line : str) :
  filter kept (normalize_keywords line) = filter kept line /\
  filter kept (normalize_variables line) = filter kept line /\
  filter kept (normalize_literals line) = filter kept line /\
  filter kept (normalize line) = filter kept line /\
  filter Py.is_digit (normalize line) = filter Py.is_digit line.
Proof.
  assert (N : filter kept (normalize line) = filter kept line).
  { unfold normalize.
    rewrite KeepFacts.normalize_literals_kept,
      KeepFacts.normalize_variables_kept.
    apply KeepFacts.normalize_keywords_kept. }
  split; [apply KeepFacts.normalize_keywords_kept|].
  split; [apply KeepFacts.normalize_variables_kept|].
  split; [apply KeepFacts.normalize_literals_kept|].
  split; [exact N|].
  rewrite <- KeepFacts.filter_digit_kept, N.
  apply KeepFacts.filter_digit_kept.
Qed.

Module LiteralFacts.

Import ReFacts ScanFacts CharFacts.

Lemma lower_c_equals (x : ascii) :
  Py.lower_c x = "="%char -> x = "="%char.
Proof.
  destruct x as [[] [] [] [] [] [] [] []]; vm_compute; intros H;
    first [reflexivity|discriminate H].
Qed.

Lemma lower_c_space (x : ascii) : Py.is_space (Py.lower_c x) = Py.is_space x.
Proof. all_chars x. Qed.

Lemma cls_ok_space (x : ascii) : cls_ok true Py.is_space x = Py.is_space x.
Proof. all_chars x. Qed.

Lemma space_not_equals (x : ascii) :
  Py.is_space x = true -> negb (Ascii.eqb x "="%char) = true.
Proof.
  destruct x as [[] [] [] [] [] [] [] []]; vm_compute; intros H;
    first [reflexivity|discriminate H].
Qed.

(** A literal text read without regard to case. *)
Lemma den_lit_ic (w : str) :
  forall st st', den true (lit w) st st' ->
    exists t, rest st = t ++ rest st' /\ Py.lower t = Py.lower w.
Proof.
  induction w as [|c w IH]; intros st st' D.
  - cbn [lit den] in D. subst. exists []. auto.
  - destruct w as [|c' w'].
    + cbn [lit den] in D. destruct D as (x & s' & E & C & ->).
      exists [x]. split; [exact E|]. unfold chr_eq in C.
      apply Ascii.eqb_eq in C. cbn. rewrite C. reflexivity.
    + change (lit (c :: c' :: w')) with (Seq (Chr c) (lit (c' :: w'))) in D.
      cbn [den] in D. destruct D as (st1 & (x & s1 & E & C & ->) & D2).
      apply IH in D2 as (t & E2 & L). cbn [rest] in E2.
      exists (x :: t). split; [rewrite E, E2; reflexivity|].
      unfold chr_eq in C. apply Ascii.eqb_eq in C.
      change (Py.lower_c x :: Py.lower t
              = Py.lower_c c :: Py.lower (c' :: w')).
      rewrite L, C. reflexivity.
Qed.

Lemma lit_ic_den (w : str) :
  forall t st s', rest st = t ++ s' -> Py.lower t = Py.lower w ->
    exists st', den true (lit w) st st' /\ rest st' = s'.
Proof.
  induction w as [|c w IH]; intros t st s' E L.
  - destruct t; [|discriminate]. exists st. cbn [lit den]. auto.
  - destruct t as [|x t]; [discriminate|]. cbn [Py.lower map] in L.
    injection L as Lx L.
    assert (C : chr_eq true c x = true)
      by (unfold chr_eq; rewrite Lx; apply Ascii.eqb_refl).
    destruct w as [|c' w'].
    + destruct t; [|discriminate].
      exists (MState (Some x) s' (caps st)). cbn [lit den rest].
      split; [|reflexivity]. exists x, s'. auto.
    + destruct (IH t (MState (Some x) (t ++ s') (caps st)) s' eq_refl L)
        as (st' & D & R).
      exists st'. split; [|exact R].
      change (lit (c :: c' :: w')) with (Seq (Chr c) (lit (c' :: w'))).
      cbn [den]. exists (MState (Some x) (t ++ s') (caps st)).
      split; [|exact D]. exists x, (t ++ s'). auto.
Qed.

Lemma lower_equals2 (t : str) :
  Py.lower t = Py.lower ("==" : str) -> t = ("==" : str).
Proof.
  destruct t as [|x [|y [|z t]]]; try discriminate. cbn. intros H.
  injection H as Hx Hy. apply lower_c_equals in Hx, Hy. subst. reflexivity.
Qed.

(** What the pattern of a literal reads: the two equals signs, whitespace,
    and the word in any letter case. *)
Lemma den_literal (w : str) (st st' : mstate) :
  den true (literal_pattern w) st st' ->
  exists ws t, rest st = ("==" : str) ++ ws ++ t ++ rest st' /\
               forallb Py.is_space ws = true /\ Py.lower t = Py.lower w.
Proof.
  unfold literal_pattern. cbn [seqs]. intros D.
  change (den true (Seq (lit "==") (Seq (Star true Py.is_space) (lit w)))
            st st') in D.
  cbn [den] in D.
  destruct D as (st1 & D1 & st2 & D2 & D3).
  change (den true (lit ("==" : str)) st st1) in D1.
  apply den_lit_ic in D1 as (t0 & E0 & L0). apply lower_equals2 in L0.
  subst t0. cbn [den] in D2. destruct D2 as (ws & s2 & E2 & F2 & ->).
  apply den_lit_ic in D3 as (t & E3 & L3). cbn [rest] in E3.
  exists ws, t. rewrite E0, E2, E3. split; [reflexivity|]. split; [|exact L3].
  rewrite forallb_forall in *. intros x Hx. rewrite <- cls_ok_space.
  exact (F2 x Hx).
Qed.

Lemma literal_den (w ws t s' : str) (st : mstate) :
  rest st = ("==" : str) ++ ws ++ t ++ s' ->
  forallb Py.is_space ws = true -> Py.lower t = Py.lower w ->
  exists st', den true (literal_pattern w) st st'.
Proof.
  intros E F L.
  destruct (lit_ic_den ("==" : str) ("==" : str) st (ws ++ t ++ s') E eq_refl)
    as (st1 & D1 & R1).
  destruct (lit_ic_den w t
              (MState (last_char ws (prev st1)) (t ++ s') (caps st1)) s'
              eq_refl L) as (st3 & D3 & R3).
  exists st3. unfold literal_pattern. cbn [seqs].
  change (den true (Seq (lit "==") (Seq (Star true Py.is_space) (lit w)))
            st st3).
  cbn [den]. exists st1. split; [exact D1|].
  exists (MState (last_char ws (prev st1)) (t ++ s') (caps st1)).
  split; [|exact D3]. exists ws, (t ++ s'). split; [exact R1|].
  split; [|reflexivity]. rewrite forallb_forall in *. intros x Hx.
  rewrite cls_ok_space. exact (F x Hx).
Qed.

(** A run of whitespace before something else is determined by the text. *)
Lemma space_run_unique :
  forall ws ws' x y r r',
    forallb Py.is_space ws = true -> forallb Py.is_space ws' = true ->
    Py.is_space x = false -> Py.is_space y = false ->
    ws ++ x :: r = ws' ++ y :: r' -> ws = ws' /\ x :: r = y :: r'.
Proof.
  induction ws as [|a ws IH]; intros [|b ws'] x y r r' F F' Hx Hy E;
    cbn [app forallb] in *.
  - auto.
  - injection E as -> _. apply andb_prop in F' as [F' _]. congruence.
  - injection E as <- _. apply andb_prop in F as [F _]. congruence.
  - injection E as <- E. apply andb_prop in F as [_ F].
    apply andb_prop in F' as [_ F'].
    destruct (IH ws' x y r r' F F' Hx Hy E) as [-> E']. auto.
Qed.

Section Literal.

Variable w0 : str.
Variable c0 : ascii.
Variable w : str.
Hypothesis Ew : w = c0 :: w0.
Hypothesis Hc0 : Py.is_space c0 = false.

Lemma literal_first (t : str) :
  Py.lower t = Py.lower w ->
  exists x t', t = x :: t' /\ Py.lower_c x = Py.lower_c c0
               /\ Py.is_space x = false.
Proof.
  rewrite Ew. destruct t as [|x t']; [discriminate|]. cbn. intros H.
  injection H as Hx _. exists x, t'. split; [reflexivity|].
  split; [exact Hx|]. rewrite <- lower_c_space, Hx, lower_c_space.
  exact Hc0.
Qed.

Lemma lower_length (t u : str) :
  Py.lower t = Py.lower u -> length t = length u.
Proof.
  intros H. apply (f_equal (@length ascii)) in H. unfold Py.lower in H.
  rewrite !length_map in H. exact H.
Qed.

(** Where the pattern matches, it reads the two equals signs, all the
    whitespace and the word. *)
Lemma try_at_literal_hit (p : option ascii) (ws t b : str) :
  forallb Py.is_space ws = true -> Py.lower t = Py.lower w ->
  exists m,
    try_at true (literal_pattern w) false p (("==" : str) ++ ws ++ t ++ b)
    = Some m /\ m_text m = ("==" : str) ++ ws ++ t.
Proof.
  intros F L.
  destruct (try_at true (literal_pattern w) false p
              (("==" : str) ++ ws ++ t ++ b)) as [m|] eqn:T.
  - exists m. split; [reflexivity|].
    apply try_at_sound in T as (st' & D & E & _).
    apply den_literal in D as (ws' & t' & E' & F' & L'). cbn [rest] in E'.
    destruct (literal_first _ L) as (x & t1 & -> & _ & Hx).
    destruct (literal_first _ L') as (y & t1' & -> & _ & Hy).
    assert (E2 := E'). cbn [app] in E2. injection E2 as E2.
    destruct (space_run_unique _ _ _ _ _ _ F F' Hx Hy E2) as [<- E3].
    assert (Len : length (x :: t1) = length (y :: t1'))
      by (rewrite (lower_length _ _ L), (lower_length _ _ L'); reflexivity).
    assert (E4 : x :: t1 = y :: t1').
    { change (x :: t1 ++ b) with ((x :: t1) ++ b) in E3.
      change (y :: t1' ++ rest st') with ((y :: t1') ++ rest st') in E3.
      apply (f_equal (firstn (length (x :: t1)))) in E3.
      rewrite firstn_app, firstn_all, Nat.sub_diag in E3.
      rewrite Len, firstn_app, firstn_all, Nat.sub_diag in E3.
      cbn [firstn] in E3. rewrite !app_nil_r in E3. exact E3. }
    rewrite E4 in E, E' |- *. rewrite E' in E.
    replace (("==" : str) ++ ws ++ (y :: t1') ++ rest st')
      with ((("==" : str) ++ ws ++ y :: t1') ++ rest st') in E
      by (rewrite <- !app_assoc; reflexivity).
    apply app_inv_tail in E. symmetry. exact E.
  - exfalso. revert T. apply ContradictionFacts.try_at_some.
    eapply literal_den; [reflexivity|exact F|exact L].
Qed.

(** No match where the text does not start with two equals signs. *)
Lemma try_at_literal_start (adv : bool) (p : option ascii) (s : str) :
  (forall r, s <> ("==" : str) ++ r) ->
  try_at true (literal_pattern w) adv p s = None.
Proof.
  intros H.
  destruct (try_at true (literal_pattern w) adv p s) as [m|] eqn:T; auto.
  apply try_at_sound in T as (st' & D & _).
  apply den_literal in D as (ws & t & E & _). cbn [rest] in E.
  destruct (H _ E).
Qed.

(** No match where another word follows the whitespace. *)
Lemma try_at_literal_other (adv : bool) (p : option ascii) (ws : str)
    (x : ascii) (r : str) :
  forallb Py.is_space ws = true -> Py.is_space x = false ->
  Py.lower_c x <> Py.lower_c c0 ->
  try_at true (literal_pattern w) adv p (("==" : str) ++ ws ++ x :: r) = None.
Proof.
  intros F Hx N.
  destruct (try_at true (literal_pattern w) adv p _) as [m|] eqn:T; auto.
  apply try_at_sound in T as (st' & D & _).
  apply den_literal in D as (ws' & t' & E & F' & L'). cbn [rest] in E.
  destruct (literal_first _ L') as (y & t1' & -> & Ly & Hy).
  cbn [app] in E. injection E as E.
  destruct (space_run_unique _ _ _ _ _ _ F F' Hx Hy E) as [_ E'].
  injection E' as -> _. contradiction.
Qed.

Variable repl : rmatch -> str.

Lemma sub_from_prefix :
  forall a p tl,
    no_equals a = true ->
    sub_from true (literal_pattern w) repl p (a ++ tl)
    = a ++ sub_from true (literal_pattern w) repl (last_char a p) tl.
Proof.
  induction a as [|x a IH]; intros p tl H; [reflexivity|].
  cbn [no_equals forallb] in H. apply andb_prop in H as [Hx H].
  cbn [app]. rewrite sub_from_miss.
  - rewrite IH by exact H. reflexivity.
  - apply try_at_literal_start. intros r E. injection E as -> _.
    discriminate.
Qed.

Lemma sub_from_plain (a : str) (p : option ascii) :
  no_equals a = true ->
  sub_from true (literal_pattern w) repl p a = a.
Proof.
  intros H. rewrite <- (app_nil_r a) at 1. rewrite sub_from_prefix by exact H.
  rewrite sub_from_end; [apply app_nil_r|].
  apply try_at_literal_start. intros r E. discriminate.
Qed.

(** The pass over a line with one comparison against the word. *)
Lemma sub_literal_hit (a ws t b : str) :
  no_equals a = true -> no_equals b = true ->
  forallb Py.is_space ws = true -> Py.lower t = Py.lower w ->
  exists m,
    sub true (literal_pattern w) repl (a ++ ("==" : str) ++ ws ++ t ++ b)
    = a ++ repl m ++ b.
Proof.
  intros Ha Hb F L. rewrite sub_render, sub_from_prefix by exact Ha.
  destruct (try_at_literal_hit (last_char a None) ws t b F L) as (m & T & M).
  exists m.
  replace (("==" : str) ++ ws ++ t ++ b)
    with ((("==" : str) ++ ws ++ t) ++ b) in *
    by (rewrite <- !app_assoc; reflexivity).
  rewrite (@sub_from_hit true (literal_pattern w) repl (last_char a None) m
             (("==" : str) ++ ws ++ t) b);
    [|discriminate|exact M|exact T].
  rewrite sub_from_plain by exact Hb. reflexivity.
Qed.

(** The pass over a line with one comparison against another word. *)
Lemma sub_literal_other (a ws : str) (x : ascii) (r : str) :
  no_equals a = true -> no_equals (ws ++ x :: r) = true ->
  forallb Py.is_space ws = true -> Py.is_space x = false ->
  Py.lower_c x <> Py.lower_c c0 ->
  sub true (literal_pattern w) repl (a ++ ("==" : str) ++ ws ++ x :: r)
  = a ++ ("==" : str) ++ ws ++ x :: r.
Proof.
  intros Ha Hc F Hx N. rewrite sub_render, sub_from_prefix by exact Ha.
  f_equal.
  assert (T := try_at_literal_other false (last_char a None) ws x r F Hx N).
  change (("==" : str) ++ ws ++ x :: r)
    with ("="%char :: "="%char :: ws ++ x :: r) in *.
  rewrite sub_from_miss by exact T.
  f_equal. rewrite sub_from_miss.
  - f_equal. apply sub_from_plain. exact Hc.
  - apply try_at_literal_start. intros r' E. cbn [app] in E.
    injection E as E. destruct ws as [|y ws'].
    + cbn [app] in E. injection E as -> _.
      cbn [no_equals app forallb] in Hc. discriminate.
    + cbn [app] in E. injection E as -> _.
      cbn [no_equals app forallb] in Hc. discriminate.
Qed.

End Literal.

Lemma lower_no_equals (t u : str) :
  Py.lower t = Py.lower u -> no_equals u = true -> no_equals t = true.
Proof.
  revert u. induction t as [|x t IH]; intros [|y u] L H; try discriminate;
    [reflexivity|].
  cbn [Py.lower map] in L. injection L as Lx L.
  change (negb (Ascii.eqb y "=") && no_equals u = true) in H.
  change (negb (Ascii.eqb x "=") && no_equals t = true).
  apply andb_prop in H as [Hy H]. rewrite (IH u L H), andb_true_r.
  apply negb_true_iff. apply negb_true_iff in Hy.
  destruct (Ascii.eqb x "=") eqn:E; [|reflexivity].
  apply Ascii.eqb_eq in E. subst x.
  symmetry in Lx. apply lower_c_equals in Lx. subst y. discriminate.
Qed.

Lemma no_equals_app (t u : str) :
  no_equals (t ++ u) = no_equals t && no_equals u.
Proof. apply forallb_app. Qed.

Lemma space_no_equals (ws : str) :
  forallb Py.is_space ws = true -> no_equals ws = true.
Proof.
  unfold no_equals. rewrite !forallb_forall. intros H x Hx.
  apply space_not_equals, H, Hx.
Qed.

End LiteralFacts.

(** X17. A comparison against the word true or false, in any letter case
    and with any whitespace (or none) between the two equals signs and the
    word, comes out of normalize_literals as the two equals signs, one
    space and the word in capitals; the text before and after it (here
    free of equals signs) is not changed. *)
Theorem normalize_literals_canonical_form (a ws t b w : str) :
  In w [("TRUE" : str); ("FALSE" : str)] ->
  no_equals a = true -> no_equals b = true ->
  forallb Py.is_space ws = true ->
  Py.lower t = Py.lower w ->
  normalize_literals (a ++ ("==" : str) ++ ws ++ t ++ b)
  = a ++ ("== " : str) ++ w ++ b.
Proof.
  intros Hw Ha Hb F L. unfold normalize_literals.
  change (seqs [lit "=="; Star true Py.is_space; lit "TRUE"])
    with (literal_pattern ("TRUE" : str)).
  change (seqs [lit "=="; Star true Py.is_space; lit "FALSE"])
    with (literal_pattern ("FALSE" : str)).
  destruct Hw as [<-|[<-|[]]].
  - destruct (@LiteralFacts.sub_literal_hit ("RUE" : str) "T"%char
                ("TRUE" : str) eq_refl eq_refl
                (const ("== TRUE" : str)) a ws t b Ha Hb F L) as (m & ->).
    unfold const at 1.
    apply (@LiteralFacts.sub_literal_other ("ALSE" : str) "F"%char
             ("FALSE" : str) eq_refl eq_refl (const ("== FALSE" : str))
             a (" " : str) "T"%char (("RUE" : str) ++ b) Ha).
    + cbn [app no_equals forallb]. exact Hb.
    + reflexivity.
    + reflexivity.
    + discriminate.
  - destruct (@LiteralFacts.literal_first ("ALSE" : str) "F"%char
                ("FALSE" : str) eq_refl eq_refl t L)
      as (x & t' & -> & Lx & Hx).
    change ((x :: t') ++ b) with (x :: t' ++ b).
    rewrite (@LiteralFacts.sub_literal_other ("RUE" : str) "T"%char
               ("TRUE" : str) eq_refl eq_refl (const ("== TRUE" : str))
               a ws x (t' ++ b) Ha).
    + destruct (@LiteralFacts.sub_literal_hit ("ALSE" : str) "F"%char
                  ("FALSE" : str) eq_refl eq_refl
                  (const ("== FALSE" : str)) a ws (x :: t') b Ha Hb F L)
        as (m & E).
      exact E.
    + change (x :: t' ++ b) with ((x :: t') ++ b).
      rewrite !LiteralFacts.no_equals_app, Hb.
      rewrite (LiteralFacts.space_no_equals _ F).
      rewrite (@LiteralFacts.lower_no_equals (x :: t') ("FALSE" : str) L)
        by reflexivity.
      reflexivity.
    + exact F.
    + exact Hx.
    + rewrite Lx. discriminate.
Qed.

Lemma normalize_literals_canonical_form_witness :
  normalize_literals ("IF active ==  tRuE THEN go" : str)
  = ("IF active == TRUE THEN go" : str).
Proof.
  apply (@normalize_literals_canonical_form ("IF active " : str)
           ("  " : str) ("tRuE" : str) (" THEN go" : str) ("TRUE" : str));
    try reflexivity.
  left. reflexivity.
Defined.
